(** * LLM queue dispatcher: a shallow embedding of the TypeScript sources

    The development follows the layout of the repository:

    - [Types]            src/types/index.ts
    - [PriorityBuffer]   src/utils/priority-buffer.ts
    - [ScoreCalculator]  src/utils/message-score-calculator.ts
    - [InMemoryStorage]  src/storage/in-memory.ts
    - [MetricsCollector] src/utils/metrics-collector.ts
    - [Dispatcher]       src/llm-queue-dispatcher.ts

    JavaScript numbers that the code uses as counters, sizes, limits and
    millisecond time stamps are integers ([Z], [nat] for [receiveCount]).
    Numbers that carry token estimates, weights and scores are real numbers
    ([R]) inside the score calculator, which is therefore exact and defined
    on finite inputs only; what is stated of it is what survives rounding.
    The dispatcher's selection does not rest on that: it takes the
    calculator as a parameter and compares totals as [JS.number], a real
    value, an infinity or NaN.  [Date.now()] is an explicit argument [now] of every
    operation that reads the clock; one operation sees one reading. *)

From Stdlib Require Import ZArith List String Ascii Bool Lia Permutation.
From Stdlib Require Import Reals Lra DecimalString Sorted.
Import ListNotations.

Local Open Scope Z_scope.

(** ** JavaScript idioms used by the sources *)

Module JS.

(** [value || fallback] on an optional integer: [undefined] and [0] are falsy. *)
Definition or_default (o : option Z) (fallback : Z) : Z :=
  match o with
  | Some v => if v =? 0 then fallback else v
  | None => fallback
  end.

(** [value || fallback] on an optional real number. *)
Definition or_defaultR (o : option R) (fallback : R) : R :=
  match o with
  | Some v => if Req_dec_T v 0%R then fallback else v
  | None => fallback
  end.

(** [cond || false] on an optional boolean flag. *)
Definition flag (o : option bool) : bool :=
  match o with
  | Some b => b
  | None => false
  end.

(** [`${n}`] for an integer. *)
Definition show (z : Z) : string := NilZero.string_of_int (Z.to_int z).

(** [array.slice(0, stop)]: a negative [stop] counts from the end. *)
Definition slice0 {A : Type} (stop : Z) (l : list A) : list A :=
  if stop <? 0
  then firstn (Z.to_nat (Z.of_nat (List.length l) + stop)) l
  else firstn (Z.to_nat stop) l.

(** [array.splice(i, 1)] for an index inside the array. *)
Definition splice1 {A : Type} (i : nat) (l : list A) : list A :=
  firstn i l ++ skipn (S i) l.

(** Comparisons of real numbers as booleans. *)
Definition Rltb (x y : R) : bool := if Rlt_dec x y then true else false.
Definition Rleb (x y : R) : bool := if Rle_dec x y then true else false.
Definition Rgtb (x y : R) : bool := Rltb y x.
Definition Rgeb (x y : R) : bool := Rleb y x.

(** A number as the comparisons see it: NaN, an infinity, or a finite
    value.  Every comparison with NaN is false. *)
Inductive number : Type :=
| NaN
| NegInfinity
| Num (x : R)
| PosInfinity.

(** [a < b] *)
Definition lt (a b : number) : bool :=
  match a, b with
  | NaN, _ | _, NaN => false
  | NegInfinity, NegInfinity => false
  | NegInfinity, _ => true
  | Num x, Num y => Rltb x y
  | Num _, PosInfinity => true
  | _, _ => false
  end.

(** [a > b] *)
Definition gt (a b : number) : bool := lt b a.


End JS.

(** ** src/types/index.ts *)

Module Types.

Inductive Priority : Type := URGENT | HIGH | NORMAL | LOW.

(** The numeric value of the enum member. *)
Definition priority_value (p : Priority) : Z :=
  match p with
  | URGENT => 0
  | HIGH => 1
  | NORMAL => 2
  | LOW => 3
  end.

(** [LLMRequest]: the fields the dispatcher and the calculator read.  The
    opaque [payload], [metadata] and [createdAt] are never inspected by the
    modelled code and are left out. *)
Record LLMRequest : Type := mkRequest {
  req_id : string;
  req_priority : Priority;
  estimated : R;                          (* tokenInfo.estimated *)
  expectedProcessingTime : option R
}.

Record Attributes : Type := mkAttributes {
  messageId : string;
  receiptHandle : string;
  enqueuedAt : Z;                         (* enqueuedAt.getTime() *)
  receiveCount : nat;
  firstReceivedAt : option Z
}.

Record QueueMessage : Type := mkMessage {
  id : string;
  payload : LLMRequest;
  attributes : Attributes
}.

Record Breakdown : Type := mkBreakdown {
  b_priority : R;
  b_efficiency : R;
  b_waitTime : R;
  b_retry : R;
  b_tokenFit : R;
  b_processingTime : R
}.

Record MessageScore : Type := mkScore {
  total : R;
  breakdown : Breakdown
}.

Record ScoringWeights : Type := mkWeights {
  w_priority : R;
  w_efficiency : R;
  w_waitTime : R;
  w_retry : R;
  w_tokenFit : R;
  w_processingTime : R
}.

(** The part of [RateLimitMetrics] the calculator reads. *)
Record RateLimitMetrics : Type := mkMetrics {
  tpm_available : R;
  tpm_limit : R
}.

(** [Record<Priority, number>] *)
Record PriorityCounts : Type := mkCounts {
  count_urgent : Z;
  count_high : Z;
  count_normal : Z;
  count_low : Z
}.

Record QueueMetricsReport : Type := mkReport {
  totalMessages : Z;
  messagesByPriority : PriorityCounts;
  oldestMessageAge : Z;
  averageWaitTime : R;
  messagesPerMinute : Z;                  (* throughput.messagesPerMinute *)
  tokensPerMinute : Z                     (* throughput.tokensPerMinute *)
}.

Record ScoringContext : Type := mkContext {
  rateLimiterMetrics : RateLimitMetrics;
  queueMetrics : QueueMetricsReport;
  currentTime : Z
}.

Record CustomScorer : Type := mkScorer {
  scorer_name : string;
  scorer_weight : R;
  scorer_calculate : QueueMessage -> ScoringContext -> R
}.

Record ScoringConfig : Type := mkScoringConfig {
  weights : option ScoringWeights;
  customScorers : option (list CustomScorer)
}.

(** The [logger] option is left out: what the dispatcher logs is kept in
    its state. *)
Record LLMQueueDispatcherConfig : Type := mkConfig {
  bufferSize : option Z;
  enablePrefetch : option bool;
  prefetchInterval : option Z;
  maxCandidatesToEvaluate : option Z;
  minScoreThreshold : option R;
  scoring : option ScoringConfig;
  metricsRetentionMs : option Z
}.

End Types.

Import Types.

(** ** src/utils/priority-buffer.ts *)

Module PriorityBuffer.

Record BufferItem : Type := mkItem {
  message : QueueMessage;
  priority : Priority;
  score : option R
}.

Record t : Type := mkBuffer {
  buffer : list BufferItem;
  maxSize : Z
}.

(** [new PriorityBuffer(maxSize)] *)
Definition create (maxSize : Z) : t := mkBuffer [] maxSize.

(** Lower enum value = higher priority. *)
Definition comparePriority (a b : Priority) : Z :=
  priority_value a - priority_value b.

(** Insertion of one item in front of the first item that compares greater. *)
Fixpoint insertSorted (x : BufferItem) (l : list BufferItem) : list BufferItem :=
  match l with
  | [] => [x]
  | y :: l' =>
      if comparePriority (priority x) (priority y) <=? 0
      then x :: y :: l'
      else y :: insertSorted x l'
  end.

(** [Array.prototype.sort] with the comparator [comparePriority]: the sort
    is stable, and a stable sort has one result, here computed by insertion
    from the right. *)
Definition sortItems (l : list BufferItem) : list BufferItem :=
  fold_right insertSorted [] l.

(** The loop of [findLowestPriorityIndex], from index [i] on. *)
Fixpoint lowestLoop (rest : list BufferItem) (i lowestIndex : nat)
    (lowestPriority : Z) : nat :=
  match rest with
  | [] => lowestIndex
  | x :: rest' =>
      if priority_value (priority x) >? lowestPriority
      then lowestLoop rest' (S i) i (priority_value (priority x))
      else lowestLoop rest' (S i) lowestIndex lowestPriority
  end.

Definition findLowestPriorityIndex (l : list BufferItem) : Z :=
  match l with
  | [] => -1
  | x :: rest => Z.of_nat (lowestLoop rest 1 0 (priority_value (priority x)))
  end.

Definition size (b : t) : nat := List.length (buffer b).

Definition add (b : t) (m : QueueMessage) (p : Priority) (s : option R)
    : bool * t :=
  let item := mkItem m p s in
  if Z.of_nat (List.length (buffer b)) >=? maxSize b then
    let lowestIndex := findLowestPriorityIndex (buffer b) in
    match (if lowestIndex =? -1 then None
           else nth_error (buffer b) (Z.to_nat lowestIndex)) with
    | Some lowest =>
        if comparePriority p (priority lowest) <? 0
        then (true,
              mkBuffer
                (sortItems (JS.splice1 (Z.to_nat lowestIndex) (buffer b) ++ [item]))
                (maxSize b))
        else (false, b)
    | None => (false, b)
    end
  else (true, mkBuffer (sortItems (buffer b ++ [item])) (maxSize b)).

(** [findIndex(item => item.message.id === id)] followed by [splice]. *)
Fixpoint removeFirst (mid : string) (l : list BufferItem)
    : bool * list BufferItem :=
  match l with
  | [] => (false, [])
  | x :: l' =>
      if String.eqb (id (message x)) mid then (true, l')
      else let (found, r) := removeFirst mid l' in (found, x :: r)
  end.

Definition remove (b : t) (m : QueueMessage) : bool * t :=
  let (found, l) := removeFirst (id m) (buffer b) in
  (found, mkBuffer l (maxSize b)).

Definition peekByPriority (b : t) (limit : option Z) : list QueueMessage :=
  let resultLimit := JS.or_default limit (Z.of_nat (List.length (buffer b))) in
  map message (JS.slice0 resultLimit (buffer b)).

Definition clear (b : t) : t := mkBuffer [] (maxSize b).

Fixpoint setScore (mid : string) (s : R) (l : list BufferItem)
    : bool * list BufferItem :=
  match l with
  | [] => (false, [])
  | x :: l' =>
      if String.eqb (id (message x)) mid
      then (true, mkItem (message x) (priority x) (Some s) :: l')
      else let (found, r) := setScore mid s l' in (found, x :: r)
  end.

Definition updateScore (b : t) (mid : string) (s : R) : bool * t :=
  let (found, l) := setScore mid s (buffer b) in
  (found, mkBuffer l (maxSize b)).

Definition getAll (b : t) : list QueueMessage := map message (buffer b).

(** [item.score || 0] *)
Definition scoreOrZero (x : BufferItem) : R := JS.or_defaultR (score x) 0%R.

(** [item.score !== undefined] *)
Definition hasScore (x : BufferItem) : bool :=
  match score x with
  | Some _ => true
  | None => false
  end.

(** Insertion for the comparator [(a, b) => (b.score || 0) - (a.score || 0)]:
    [x] goes in front of the first [y] for which the comparator of [x] and
    [y] is not positive. *)
Fixpoint insertByScore (x : BufferItem) (l : list BufferItem) : list BufferItem :=
  match l with
  | [] => [x]
  | y :: l' =>
      if JS.Rleb (scoreOrZero y - scoreOrZero x) 0%R
      then x :: y :: l'
      else y :: insertByScore x l'
  end.

(** The stable sort by descending score. *)
Definition sortByScore (l : list BufferItem) : list BufferItem :=
  fold_right insertByScore [] l.

Definition peekByScore (b : t) (limit : option Z) : list QueueMessage :=
  let sorted := sortByScore (filter hasScore (buffer b)) in
  let resultLimit := JS.or_default limit (Z.of_nat (List.length sorted)) in
  map message (JS.slice0 resultLimit sorted).

End PriorityBuffer.


(** ** src/utils/message-score-calculator.ts *)

Module ScoreCalculator.
Import JS.

Local Open Scope R_scope.

Record t : Type := mkCalculator {
  calc_weights : ScoringWeights;
  calc_customScorers : list CustomScorer
}.

Definition getDefaultWeights : ScoringWeights :=
  mkWeights 0.25 0.20 0.20 0.10 0.15 0.10.

(** The constructor: [config.weights || defaults], [config.customScorers || []]. *)
Definition create (config : ScoringConfig) : t :=
  mkCalculator
    (match weights config with Some w => w | None => getDefaultWeights end)
    (match customScorers config with Some l => l | None => [] end).

Definition calculatePriorityScore (p : Priority) : R :=
  match p with
  | URGENT => 1.0
  | HIGH => 0.7
  | NORMAL => 0.4
  | LOW => 0.1
  end.

Definition calculateEfficiencyScore (estimatedTokens availableTPM _tpmLimit : R) : R :=
  if Rleb availableTPM 0 then 0
  else
    let utilization := estimatedTokens / availableTPM in
    if Rgeb utilization 0.7 && Rleb utilization 0.9 then 1.0
    else if Rgtb utilization 0.9 && Rleb utilization 1.0 then 0.9
    else if Rgtb utilization 1.0 then 0
    else utilization / 0.7.

Definition maxWaitTimes (p : Priority) : R :=
  match p with
  | URGENT => 10 * 1000
  | HIGH => 30 * 1000
  | NORMAL => 60 * 1000
  | LOW => 300 * 1000
  end.

(** [Math.pow(score, 0.5)] is the square root on the non-negative reals.
    For a negative wait, that of a message enqueued after the current time,
    the code's value is NaN, which this model does not have: what is stated
    of the wait-time score is stated for waits that are not negative. *)
Definition calculateWaitTimeScore (waitTimeMs : R) (p : Priority) : R :=
  let maxWait := maxWaitTimes p in
  let score := Rmin (waitTimeMs / maxWait) 1.0 in
  match p with
  | URGENT => sqrt score
  | _ => score
  end.

Definition calculateRetryPenalty (receiveCount : nat) : R :=
  if Nat.eqb receiveCount 0 then 1.0
  else Rmax 0.1 (0.7 ^ receiveCount).

Definition calculateTokenFitScore (estimatedTokens availableTPM : R) : R :=
  if Rleb availableTPM 0 then 0
  else
    let ratio := estimatedTokens / availableTPM in
    if Rltb ratio 0.1 then ratio * 10
    else if Rgeb ratio 0.1 && Rleb ratio 0.5 then 1.0
    else if Rgtb ratio 0.5 && Rleb ratio 1.0 then 1.0 - ((ratio - 0.5) * 0.4)
    else 0.

(** The arithmetic is exact; in the code's doubles the value computed at
    30000 lies just below the constant 0.1 that is returned above
    30000. *)
Definition normalizeProcessingTime (timeMs : R) : R :=
  if Rleb timeMs 1000 then 1.0
  else if Rleb timeMs 5000 then 1.0 - ((timeMs - 1000) / 4000 * 0.3)
  else if Rleb timeMs 30000 then 0.7 - ((timeMs - 5000) / 25000 * 0.6)
  else 0.1.

(** [!expectedProcessingTimeMs] holds for [undefined] and for [0]. *)
Definition calculateProcessingTimeScore (estimatedTokens : R)
    (expectedProcessingTimeMs : option R) : R :=
  match expectedProcessingTimeMs with
  | None => normalizeProcessingTime (estimatedTokens * 10)
  | Some ms =>
      if Req_dec_T ms 0 then normalizeProcessingTime (estimatedTokens * 10)
      else normalizeProcessingTime ms
  end.

(** The six base scores of [calculateScore], before the weights are applied. *)
Definition baseScores (message : QueueMessage) (context : ScoringContext)
    : Breakdown :=
  let request := payload message in
  let now := currentTime context in
  let rateLimiterMetrics := rateLimiterMetrics context in
  mkBreakdown
    (calculatePriorityScore (req_priority request))
    (calculateEfficiencyScore (estimated request)
       (tpm_available rateLimiterMetrics) (tpm_limit rateLimiterMetrics))
    (calculateWaitTimeScore
       (IZR (now - enqueuedAt (attributes message))) (req_priority request))
    (calculateRetryPenalty (receiveCount (attributes message)))
    (calculateTokenFitScore (estimated request) (tpm_available rateLimiterMetrics))
    (calculateProcessingTimeScore (estimated request)
       (expectedProcessingTime request)).

(** The sum is exact, where the code's sum of doubles is rounded. *)
Definition calculateScore (c : t) (message : QueueMessage)
    (context : ScoringContext) : MessageScore :=
  let base := baseScores message context in
  let w := calc_weights c in
  let breakdown :=
    mkBreakdown
      (b_priority base * w_priority w)
      (b_efficiency base * w_efficiency w)
      (b_waitTime base * w_waitTime w)
      (b_retry base * w_retry w)
      (b_tokenFit base * w_tokenFit w)
      (b_processingTime base * w_processingTime w) in
  let customTotal :=
    fold_left
      (fun acc scorer =>
         acc + scorer_calculate scorer message context * scorer_weight scorer)
      (calc_customScorers c) 0 in
  let total :=
    fold_left Rplus
      [b_priority breakdown; b_efficiency breakdown; b_waitTime breakdown;
       b_retry breakdown; b_tokenFit breakdown; b_processingTime breakdown] 0
    + customTotal in
  mkScore total breakdown.

End ScoreCalculator.


(** ** Effects: results, exceptions and mutable state

    An asynchronous method that may reject is a function from the state
    before the call to a result and the state after it.  Mutations made
    before an exception is thrown persist, as they do in JavaScript. *)

Module Effect.

(** An error carries the message of the [Error] object. *)
Inductive Result (A : Type) : Type :=
| Ok (a : A)
| Throw (error : string).

Arguments Ok {A} a.
Arguments Throw {A} error.

Definition M (St A : Type) : Type := St -> Result A * St.

Definition ret {St A : Type} (a : A) : M St A := fun s => (Ok a, s).

Definition throw {St A : Type} (error : string) : M St A :=
  fun s => (Throw error, s).

Definition bind {St A B : Type} (m : M St A) (k : A -> M St B) : M St B :=
  fun s =>
    match m s with
    | (Ok a, s') => k a s'
    | (Throw e, s') => (Throw e, s')
    end.

(** [try { m } catch (error) { handler }] *)
Definition tryCatch {St A : Type} (m : M St A) (handler : string -> M St A)
    : M St A :=
  fun s =>
    match m s with
    | (Ok a, s') => (Ok a, s')
    | (Throw e, s') => handler e s'
    end.

Definition gets {St A : Type} (f : St -> A) : M St A := fun s => (Ok (f s), s).

Definition modify {St : Type} (f : St -> St) : M St unit :=
  fun s => (Ok tt, f s).

(** A synchronous call that returns or throws without touching the state. *)
Definition liftResult {St A : Type} (r : Result A) : M St A := fun s => (r, s).

(** [for (const x of l) { body }] *)
Fixpoint forEach {St A : Type} (l : list A) (body : A -> M St unit) : M St unit :=
  match l with
  | [] => ret tt
  | x :: l' => bind (body x) (fun _ => forEach l' body)
  end.

(** [l.map(f)] for a callback that may throw: the first exception ends the map. *)
Fixpoint mapResult {A B : Type} (f : A -> Result B) (l : list A) : Result (list B) :=
  match l with
  | [] => Ok []
  | x :: l' =>
      match f x with
      | Throw e => Throw e
      | Ok y =>
          match mapResult f l' with
          | Throw e => Throw e
          | Ok ys => Ok (y :: ys)
          end
      end
  end.

Module Notations.
Notation "x <- m ;; k" := (bind m (fun x => k))
  (at level 61, m at next level, right associativity).
Notation "m ;;; k" := (bind m (fun _ => k))
  (at level 61, right associativity).
End Notations.

End Effect.

Import Effect.

(** ** The JavaScript [Map] with string keys

    Iteration follows insertion order; [set] on a present key keeps the
    key's position. *)

Module JSMap.

Definition t (V : Type) : Type := list (string * V).

Definition empty {V : Type} : t V := [].

Fixpoint get {V : Type} (k : string) (m : t V) : option V :=
  match m with
  | [] => None
  | (k', v) :: m' => if String.eqb k' k then Some v else get k m'
  end.

Fixpoint set {V : Type} (k : string) (v : V) (m : t V) : t V :=
  match m with
  | [] => [(k, v)]
  | (k', v') :: m' =>
      if String.eqb k' k then (k', v) :: m' else (k', v') :: set k v m'
  end.

Definition delete {V : Type} (k : string) (m : t V) : t V :=
  filter (fun e => negb (String.eqb (fst e) k)) m.

End JSMap.

(** ** src/storage/in-memory.ts *)

Module InMemoryStorage.
Import JS.

Record InMemoryMessage : Type := mkRecord {
  message : QueueMessage;
  visibilityTimeout : option Z;
  deleteAt : option Z
}.

(** [inFlight] maps a receipt handle to the message object; the storage reads
    only the immutable [id] of that object, which is what the model keeps.
    The objects returned by [dequeue] are copies [{ ...message }] whose
    [attributes] object is shared with the stored record; the model returns
    the attributes by value, as they are when [dequeue] returns. *)
Record t : Type := mkStorage {
  messages : JSMap.t InMemoryMessage;
  inFlight : JSMap.t string;
  messageCounter : Z;
  createdAt : Z;
  lastModified : Z
}.

Definition create (now : Z) : t := mkStorage JSMap.empty JSMap.empty 0 now now.

Definition notFound (receiptHandle : string) : string :=
  ("Message with receipt handle " ++ receiptHandle ++ " not found")%string.

Definition enqueue (request : LLMRequest) (now : Z) : M t QueueMessage :=
  fun st =>
    let counter := messageCounter st + 1 in
    let messageId := ("msg-" ++ show counter)%string in
    let receiptHandle := ("receipt-" ++ messageId ++ "-" ++ show now)%string in
    let queueMessage :=
      mkMessage messageId request
        (mkAttributes messageId receiptHandle now 0%nat None) in
    (Ok queueMessage,
     mkStorage
       (JSMap.set messageId (mkRecord queueMessage None None) (messages st))
       (inFlight st) counter (createdAt st) now).

(** One round of the loop that reaps expired in-flight entries. *)
Definition reapStep (now : Z)
    (acc : JSMap.t InMemoryMessage * JSMap.t string)
    (entry : string * string) : JSMap.t InMemoryMessage * JSMap.t string :=
  let (msgs, infl) := acc in
  let (receiptHandle, messageId) := entry in
  match JSMap.get messageId msgs with
  | Some inMemMsg =>
      match visibilityTimeout inMemMsg with
      | Some vt =>
          if negb (vt =? 0) && (vt <? now)
          then (JSMap.set messageId
                  (mkRecord (message inMemMsg) None (deleteAt inMemMsg)) msgs,
                JSMap.delete receiptHandle infl)
          else (msgs, infl)
      | None => (msgs, infl)
      end
  | None => (msgs, infl)
  end.

(** [visibilityTimeout && visibilityTimeout > now] *)
Definition isHidden (now : Z) (inMemMsg : InMemoryMessage) : bool :=
  match visibilityTimeout inMemMsg with
  | Some vt => negb (vt =? 0) && (vt >? now)
  | None => false
  end.

(** [deleteAt && deleteAt <= now] *)
Definition isDue (now : Z) (inMemMsg : InMemoryMessage) : bool :=
  match deleteAt inMemMsg with
  | Some d => negb (d =? 0) && (d <=? now)
  | None => false
  end.

(** The delivery of one record: new handle, count, first-receive stamp. *)
Definition deliver (key : string) (inMemMsg : InMemoryMessage)
    (visibilityTimeoutSeconds now : Z) : InMemoryMessage :=
  let m := message inMemMsg in
  let a := attributes m in
  let newReceiptHandle := ("receipt-" ++ key ++ "-" ++ show now)%string in
  mkRecord
    (mkMessage (id m) (payload m)
       (mkAttributes (messageId a) newReceiptHandle (enqueuedAt a)
          (S (receiveCount a))
          (match firstReceivedAt a with
           | Some d => Some d
           | None => Some now
           end)))
    (Some (now + visibilityTimeoutSeconds * 1000))
    (deleteAt inMemMsg).

(** The loop over [this.messages.entries()] that collects available messages. *)
Fixpoint collect (entries : list (string * InMemoryMessage))
    (limit visibilityTimeoutSeconds now : Z)
    (results : list QueueMessage)
    (msgs : JSMap.t InMemoryMessage) (infl : JSMap.t string)
    : list QueueMessage * JSMap.t InMemoryMessage * JSMap.t string :=
  match entries with
  | [] => (results, msgs, infl)
  | (key, inMemMsg) :: rest =>
      if Z.of_nat (List.length results) >=? limit then (results, msgs, infl)
      else if isHidden now inMemMsg
      then collect rest limit visibilityTimeoutSeconds now results msgs infl
      else if isDue now inMemMsg
      then collect rest limit visibilityTimeoutSeconds now results
             (JSMap.delete key msgs) infl
      else
        let delivered := deliver key inMemMsg visibilityTimeoutSeconds now in
        collect rest limit visibilityTimeoutSeconds now
          (results ++ [message delivered])
          (JSMap.set key delivered msgs)
          (JSMap.set (receiptHandle (attributes (message delivered)))
             (id (message inMemMsg)) infl)
  end.

Definition dequeue (limit visibilityTimeoutSeconds now : Z)
    : M t (list QueueMessage) :=
  fun st =>
    let (msgs1, infl1) :=
      fold_left (reapStep now) (inFlight st) (messages st, inFlight st) in
    let '(results, msgs2, infl2) :=
      collect msgs1 limit visibilityTimeoutSeconds now [] msgs1 infl1 in
    (Ok results,
     mkStorage msgs2 infl2 (messageCounter st) (createdAt st) (lastModified st)).

Definition deleteMessage (receiptHandle : string) (now : Z) : M t unit :=
  fun st =>
    match JSMap.get receiptHandle (inFlight st) with
    | None => (Throw (notFound receiptHandle), st)
    | Some messageId =>
        (Ok tt,
         mkStorage
           (JSMap.delete messageId (messages st))
           (JSMap.delete receiptHandle (inFlight st))
           (messageCounter st) (createdAt st) now)
    end.

Definition updateVisibilityTimeout (receiptHandle : string)
    (visibilityTimeoutSeconds now : Z) : M t unit :=
  fun st =>
    match JSMap.get receiptHandle (inFlight st) with
    | None => (Throw (notFound receiptHandle), st)
    | Some messageId =>
        match JSMap.get messageId (messages st) with
        | Some inMemMsg =>
            (Ok tt,
             mkStorage
               (JSMap.set messageId
                  (mkRecord (message inMemMsg)
                     (Some (now + visibilityTimeoutSeconds * 1000))
                     (deleteAt inMemMsg))
                  (messages st))
               (inFlight st) (messageCounter st) (createdAt st) (lastModified st))
        | None => (Ok tt, st)
        end
    end.

(** [!visibilityTimeout || visibilityTimeout < now] *)
Definition isCountedVisible (now : Z) (inMemMsg : InMemoryMessage) : bool :=
  match visibilityTimeout inMemMsg with
  | Some vt => (vt =? 0) || (vt <? now)
  | None => true
  end.

Definition getApproximateMessageCount (now : Z) : M t Z :=
  fun st =>
    (Ok (Z.of_nat
           (List.length (filter (fun e => isCountedVisible now (snd e)) (messages st)))),
     st).

Definition purge (now : Z) : M t unit :=
  fun st =>
    (Ok tt,
     mkStorage JSMap.empty JSMap.empty (messageCounter st) (createdAt st) now).

(** [getAllMessages()], a testing helper. *)
Definition getAllMessages (st : t) : list QueueMessage :=
  map (fun e => message (snd e)) (messages st).

(** The loop of [peekMessagesByPriority]. *)
Fixpoint peekLoop (entries : list (string * InMemoryMessage))
    (wanted limit now : Z) (results : list QueueMessage) : list QueueMessage :=
  match entries with
  | [] => results
  | (_, inMemMsg) :: rest =>
      if Z.of_nat (List.length results) >=? limit then results
      else if isHidden now inMemMsg then peekLoop rest wanted limit now results
      else if priority_value (req_priority (payload (message inMemMsg))) =? wanted
      then peekLoop rest wanted limit now (results ++ [message inMemMsg])
      else peekLoop rest wanted limit now results
  end.

Definition peekMessagesByPriority (wanted limit now : Z) : M t (list QueueMessage) :=
  fun st => (Ok (peekLoop (messages st) wanted limit now []), st).

(** The loop of [batchEnqueue]: one [enqueue] after the other. *)
Fixpoint batchEnqueueLoop (requests : list LLMRequest) (now : Z)
    (results : list QueueMessage) : M t (list QueueMessage) :=
  match requests with
  | [] => ret results
  | request :: rest =>
      bind (enqueue request now)
           (fun queued => batchEnqueueLoop rest now (results ++ [queued]))
  end.

Definition batchEnqueue (requests : list LLMRequest) (now : Z)
    : M t (list QueueMessage) :=
  batchEnqueueLoop requests now [].

Definition batchDelete (receiptHandles : list string) (now : Z) : M t unit :=
  forEach receiptHandles (fun handle => deleteMessage handle now).

(** src/storage/types.ts, [QueueAttributes]; [queueArn] is never set. *)
Record QueueAttributes : Type := mkAttrs {
  approximateNumberOfMessages : Z;
  approximateNumberOfMessagesInFlight : Z;
  createdTimestamp : Z;
  lastModifiedTimestamp : Z;
  attr_visibilityTimeout : Z;
  maximumMessageSize : Z;
  messageRetentionPeriod : Z
}.

Definition getQueueAttributes (now : Z) : M t QueueAttributes :=
  fun st =>
    let inFlightCount :=
      Z.of_nat (List.length (filter (fun e => isHidden now (snd e)) (messages st))) in
    (Ok (mkAttrs
           (Z.of_nat (List.length (messages st)) - inFlightCount)
           inFlightCount
           (createdAt st) (lastModified st)
           30 (256 * 1024) (4 * 24 * 60 * 60)),
     st).

End InMemoryStorage.


(** ** src/utils/metrics-collector.ts *)

Module MetricsCollector.
Import JS.

Inductive MetricType : Type := EnqueueEvent | DequeueEvent | CompleteEvent | FailureEvent.

(** A record as the four [record...] methods write it; all of them set the
    priority. *)
Record MetricRecord : Type := mkMetric {
  timestamp : Z;
  metric_type : MetricType;
  metric_messageId : string;
  metric_priority : Priority;
  processingTimeMs : option Z;
  errorMessage : option string
}.

Record t : Type := mkCollector {
  records : list MetricRecord;
  retentionMs : Z;
  maxRecords : Z
}.

(** [constructor(retentionMs = 300000, maxRecords = 10000)]: a default is
    taken when the argument is [undefined], not when it is 0. *)
Definition create (retention limit : option Z) : t :=
  mkCollector []
    (match retention with Some r => r | None => 300000 end)
    (match limit with Some m => m | None => 10000 end).

(** [array.slice(start)]: a negative [start] counts from the end, and
    [-0] is 0. *)
Definition sliceFrom {A : Type} (start : Z) (l : list A) : list A :=
  if start <? 0
  then skipn (Z.to_nat (Z.of_nat (List.length l) + start)) l
  else skipn (Z.to_nat start) l.

Definition isRecent (cutoff : Z) (r : MetricRecord) : bool :=
  timestamp r >? cutoff.

Definition cleanup (now : Z) (c : t) : t :=
  let cutoff := now - retentionMs c in
  let kept := filter (isRecent cutoff) (records c) in
  mkCollector
    (if Z.of_nat (List.length kept) >? maxRecords c
     then sliceFrom (- maxRecords c) kept
     else kept)
    (retentionMs c) (maxRecords c).

(** [maxRecords * 1.2] is taken over the reals. *)
Definition addRecord (record : MetricRecord) (now : Z) (c : t) : t :=
  let pushed := mkCollector (records c ++ [record]) (retentionMs c) (maxRecords c) in
  if Rgtb (IZR (Z.of_nat (List.length (records pushed)))) (IZR (maxRecords c) * 1.2)%R
  then cleanup now pushed
  else pushed.

Definition recordEnqueue (message : QueueMessage) (now : Z) : t -> t :=
  addRecord
    (mkMetric now EnqueueEvent (id message) (req_priority (payload message))
       None None) now.

Definition recordDequeue (message : QueueMessage) (now : Z) : t -> t :=
  addRecord
    (mkMetric now DequeueEvent (id message) (req_priority (payload message))
       None None) now.

Definition recordComplete (message : QueueMessage) (processingTimeMs now : Z)
    : t -> t :=
  addRecord
    (mkMetric now CompleteEvent (id message) (req_priority (payload message))
       (Some processingTimeMs) None) now.

Definition recordFailure (message : QueueMessage) (error : string) (now : Z)
    : t -> t :=
  addRecord
    (mkMetric now FailureEvent (id message) (req_priority (payload message))
       None (Some error)) now.

Definition isEnqueue (r : MetricRecord) : bool :=
  match metric_type r with EnqueueEvent => true | _ => false end.

Definition isComplete (r : MetricRecord) : bool :=
  match metric_type r with CompleteEvent => true | _ => false end.

(** [messagesByPriority[priority]++] *)
Definition countPriority (counts : PriorityCounts) (p : Priority) : PriorityCounts :=
  match p with
  | URGENT => mkCounts (count_urgent counts + 1) (count_high counts)
                (count_normal counts) (count_low counts)
  | HIGH => mkCounts (count_urgent counts) (count_high counts + 1)
              (count_normal counts) (count_low counts)
  | NORMAL => mkCounts (count_urgent counts) (count_high counts)
                (count_normal counts + 1) (count_low counts)
  | LOW => mkCounts (count_urgent counts) (count_high counts)
             (count_normal counts) (count_low counts + 1)
  end.

(** The loop over the complete records: the sum of the waits and the number
    of complete records that have an enqueue record of the same message. *)
Definition addWait (enqueueRecords : list MetricRecord) (acc : Z * Z)
    (complete : MetricRecord) : Z * Z :=
  match find (fun e => String.eqb (metric_messageId e) (metric_messageId complete))
             enqueueRecords with
  | Some enqueue =>
      (fst acc + (timestamp complete - timestamp enqueue), snd acc + 1)
  | None => acc
  end.

(** [getReport]: the clean-up it starts with changes the collector. *)
Definition getReport (now : Z) (c : t) : QueueMetricsReport * t :=
  let cleaned := cleanup now c in
  let oneMinuteAgo := now - 60000 in
  let enqueueRecords := filter isEnqueue (records cleaned) in
  let messagesByPriority :=
    fold_left (fun counts record => countPriority counts (metric_priority record))
      enqueueRecords (mkCounts 0 0 0 0) in
  let oldestMessageAge :=
    match map timestamp enqueueRecords with
    | [] => 0
    | first :: rest => now - fold_left Z.min rest first
    end in
  let completeRecords := filter isComplete (records cleaned) in
  let waits := fold_left (addWait enqueueRecords) completeRecords (0, 0) in
  let averageWaitTime :=
    if snd waits >? 0 then (IZR (fst waits) / IZR (snd waits))%R else 0%R in
  let recentCompletes := filter (isRecent oneMinuteAgo) completeRecords in
  let messagesPerMinute := Z.of_nat (List.length recentCompletes) in
  (mkReport (Z.of_nat (List.length enqueueRecords)) messagesByPriority
     oldestMessageAge averageWaitTime messagesPerMinute (messagesPerMinute * 1000),
   cleaned).



End MetricsCollector.


(** ** src/llm-queue-dispatcher.ts *)

Module Dispatcher.
Import JS.
Import Effect.Notations.

(** src/storage/types.ts: the adapter the dispatcher is given.  Every
    operation may reject. *)
Record QueueStorageAdapter (St : Type) : Type := mkAdapter {
  storage_enqueue : LLMRequest -> Z -> M St QueueMessage;
  storage_dequeue : Z -> Z -> Z -> M St (list QueueMessage);
  storage_deleteMessage : string -> Z -> M St unit;
  storage_updateVisibilityTimeout : string -> Z -> Z -> M St unit;
  storage_purge : option (Z -> M St unit)
}.

Arguments mkAdapter {St}.
Arguments storage_enqueue {St}.
Arguments storage_dequeue {St}.
Arguments storage_deleteMessage {St}.
Arguments storage_updateVisibilityTimeout {St}.
Arguments storage_purge {St}.

Definition inMemoryAdapter : QueueStorageAdapter InMemoryStorage.t :=
  mkAdapter
    InMemoryStorage.enqueue
    InMemoryStorage.dequeue
    InMemoryStorage.deleteMessage
    InMemoryStorage.updateVisibilityTimeout
    (Some InMemoryStorage.purge).

(** The rate limiter of @aid-on/llm-throttle, as far as the dispatcher
    consults it.  Both calls are synchronous and may throw. *)
Record CanProcessResult : Type := mkCanProcess {
  allowed : bool;
  availableIn : option R
}.

Record LLMThrottle : Type := mkThrottle {
  canProcess : R -> Result CanProcessResult;
  getMetrics : Result RateLimitMetrics
}.

Inductive LogLevel : Type := Debug | Info | Warn | Error.

Record InFlightMessage : Type := mkInFlight {
  inflight_message : QueueMessage;
  startedAt : Z
}.

(** [ScoredMessage] and [MessageSelection] carry the score object that the
    calculator returned; [Score] is its type. *)
Record ScoredMessage (Score : Type) : Type := mkScored {
  scored_message : QueueMessage;
  scored_score : Score;
  waitTimeUntilReady : R
}.

Arguments mkScored {Score}.
Arguments scored_message {Score}.
Arguments scored_score {Score}.
Arguments waitTimeUntilReady {Score}.

Record MessageSelection (Score : Type) : Type := mkSelection {
  selection_message : QueueMessage;
  selection_score : Score
}.

Arguments mkSelection {Score}.
Arguments selection_message {Score}.
Arguments selection_score {Score}.

(** The score calculator as [selectOptimalMessage] uses it: the method it
    calls, and the one field it reads of the score returned, [total], which
    it compares as a JS number. *)
Record Calculator (Score : Type) : Type := mkCalculatorUse {
  calculateScore : QueueMessage -> ScoringContext -> Score;
  totalOf : Score -> number
}.

Arguments mkCalculatorUse {Score}.
Arguments calculateScore {Score}.
Arguments totalOf {Score}.

(** The handle given to the caller; its three methods are the functions
    [markAsProcessed], [markAsFailed] and [updateVisibility] below. *)
Record ProcessableMessage : Type := mkProcessable {
  processable_message : QueueMessage;
  processable_entry : InFlightMessage
}.

(** The mutable fields of the dispatcher.  The logger is kept as the list
    of lines written, the interval timer as its period. *)
Record t (St : Type) : Type := mkDispatcher {
  storage : St;
  inFlightMessages : JSMap.t InFlightMessage;
  prefetchBuffer : PriorityBuffer.t;
  metrics : MetricsCollector.t;
  logged : list (LogLevel * string);
  prefetchIntervalTimer : option Z
}.

Arguments mkDispatcher {St}.
Arguments storage {St}.
Arguments inFlightMessages {St}.
Arguments prefetchBuffer {St}.
Arguments metrics {St}.
Arguments logged {St}.
Arguments prefetchIntervalTimer {St}.

Definition priorityName (p : Priority) : string :=
  match p with
  | URGENT => "URGENT"
  | HIGH => "HIGH"
  | NORMAL => "NORMAL"
  | LOW => "LOW"
  end.

Definition visibilityTimeout : Z := 30.

Section WithStorage.

Context {St : Type}.
Variable adapter : QueueStorageAdapter St.
Variable config : LLMQueueDispatcherConfig.

Definition withStorage (d : t St) (s : St) : t St :=
  mkDispatcher s (inFlightMessages d) (prefetchBuffer d) (metrics d) (logged d)
    (prefetchIntervalTimer d).

Definition withInFlight (d : t St) (m : JSMap.t InFlightMessage) : t St :=
  mkDispatcher (storage d) m (prefetchBuffer d) (metrics d) (logged d)
    (prefetchIntervalTimer d).

Definition withBuffer (d : t St) (b : PriorityBuffer.t) : t St :=
  mkDispatcher (storage d) (inFlightMessages d) b (metrics d) (logged d)
    (prefetchIntervalTimer d).

Definition withTimer (d : t St) (timer : option Z) : t St :=
  mkDispatcher (storage d) (inFlightMessages d) (prefetchBuffer d) (metrics d)
    (logged d) timer.

Definition withMetrics (d : t St) (c : MetricsCollector.t) : t St :=
  mkDispatcher (storage d) (inFlightMessages d) (prefetchBuffer d) c (logged d)
    (prefetchIntervalTimer d).

(** A call of a storage method from the dispatcher. *)
Definition onStorage {A : Type} (op : M St A) : M (t St) A :=
  fun d => let (r, s) := op (storage d) in (r, withStorage d s).

Definition log (level : LogLevel) (line : string) : M (t St) unit :=
  modify (fun d =>
    mkDispatcher (storage d) (inFlightMessages d) (prefetchBuffer d) (metrics d)
      (logged d ++ [(level, line)]) (prefetchIntervalTimer d)).

(** A call of one of the collector's [record...] methods. *)
Definition onMetrics (method : MetricsCollector.t -> MetricsCollector.t)
    : M (t St) unit :=
  modify (fun d => withMetrics d (method (metrics d))).

(** [this.metrics.getReport()] *)
Definition getReport (now : Z) : M (t St) QueueMetricsReport :=
  fun d =>
    let (report, cleaned) := MetricsCollector.getReport now (metrics d) in
    (Ok report, withMetrics d cleaned).

Definition scoreCalculator : ScoreCalculator.t :=
  ScoreCalculator.create
    (match scoring config with
     | Some s => s
     | None => mkScoringConfig None None
     end).

(** [this.scoreCalculator] as the dispatcher uses it.  The calculator is
    the one over the reals, so its totals are values, never NaN. *)
Definition calculator : Calculator MessageScore :=
  mkCalculatorUse
    (ScoreCalculator.calculateScore scoreCalculator)
    (fun score => Num (total score)).

Definition startPrefetchWorker (d : t St) : t St :=
  let interval := or_default (prefetchInterval config) 5000 in
  withTimer d (Some interval).

(** The constructor. *)
Definition create (s : St) : t St :=
  let d :=
    mkDispatcher s JSMap.empty
      (PriorityBuffer.create (or_default (bufferSize config) 50))
      (MetricsCollector.create (metricsRetentionMs config) None) [] None in
  if flag (enablePrefetch config) then startPrefetchWorker d else d.

Definition enqueue (request : LLMRequest) (now : Z) : M (t St) unit :=
  message <- onStorage (storage_enqueue adapter request now) ;;
  onMetrics (MetricsCollector.recordEnqueue message now) ;;;
  log Debug ("Enqueued message " ++ id message ++ " with priority "
             ++ priorityName (req_priority request))%string.

(** The callback of [candidates.map] in [selectOptimalMessage];
    [scorer] is [this.scoreCalculator]. *)
Definition scoreCandidate {Score : Type} (scorer : Calculator Score)
    (rateLimiter : LLMThrottle) (context : ScoringContext)
    (message : QueueMessage) : Result (option (ScoredMessage Score)) :=
  match canProcess rateLimiter (estimated (payload message)) with
  | Throw e => Throw e
  | Ok answer =>
      if negb (allowed answer) then Ok None
      else
        Ok (Some (mkScored message
                    (calculateScore scorer message context)
                    (or_defaultR (availableIn answer) 0%R)))
  end.

(** [.filter(item => item !== null)] *)
Fixpoint dropNull {A : Type} (l : list (option A)) : list A :=
  match l with
  | [] => []
  | Some x :: l' => x :: dropNull l'
  | None :: l' => dropNull l'
  end.

(** The callback of [scoredCandidates.reduce]:
    [current.score.total > best.score.total ? current : best]. *)
Definition better {Score : Type} (scorer : Calculator Score)
    (best current : ScoredMessage Score) : ScoredMessage Score :=
  if gt (totalOf scorer (scored_score current)) (totalOf scorer (scored_score best))
  then current else best.

(** [selectOptimalMessage], with [this.scoreCalculator] as the argument
    [scorer]; the [reason] text of the selection is left out.  The report
    that goes into the scoring context is taken after the limiter has
    returned its metrics, and taking it cleans up the collector. *)
Definition selectOptimalMessage {Score : Type} (scorer : Calculator Score)
    (candidates : list QueueMessage) (rateLimiter : LLMThrottle) (now : Z)
    : M (t St) (option (MessageSelection Score)) :=
  limiterMetrics <- liftResult (getMetrics rateLimiter) ;;
  report <- getReport now ;;
  let context := mkContext limiterMetrics report now in
  mapped <- liftResult (mapResult (scoreCandidate scorer rateLimiter context)
                          candidates) ;;
  match dropNull mapped with
  | [] => ret None
  | first :: rest =>
      let selected := fold_left (better scorer) rest first in
      if lt (totalOf scorer (scored_score selected))
            (Num (or_defaultR (minScoreThreshold config) 0.1%R))
      then ret None
      else ret (Some (mkSelection (scored_message selected) (scored_score selected)))
  end.

Definition getCandidatesFromBuffer : M (t St) (list QueueMessage) :=
  let maxCandidates := or_default (maxCandidatesToEvaluate config) 20 in
  gets (fun d => PriorityBuffer.peekByPriority (prefetchBuffer d) (Some maxCandidates)).

(** [prepareForProcessing] makes no storage or limiter call, so it cannot
    reject on their account. *)
Definition prepareForProcessing (message : QueueMessage) (now : Z)
    : M (t St) ProcessableMessage :=
  let inFlightEntry := mkInFlight message now in
  modify (fun d => withInFlight d (JSMap.set (id message) inFlightEntry (inFlightMessages d))) ;;;
  onMetrics (MetricsCollector.recordDequeue message now) ;;;
  ret (mkProcessable message inFlightEntry).

(** [markAsProcessed] and [updateVisibility] read
    [message.attributes.receiptHandle] when they are called, not when the
    handle object was made, and a storage may share the attributes object
    with its own record of the message (the in-memory storage does, and
    rewrites the handle at every delivery).  What is read is the argument
    [handle]. *)
Definition markAsProcessed (p : ProcessableMessage) (handle : string) (now : Z)
    : M (t St) unit :=
  let message := processable_message p in
  onStorage (storage_deleteMessage adapter handle now) ;;;
  modify (fun d => withInFlight d (JSMap.delete (id message) (inFlightMessages d))) ;;;
  let processingTime := now - startedAt (processable_entry p) in
  onMetrics (MetricsCollector.recordComplete message processingTime now) ;;;
  log Debug ("Message " ++ id message ++ " processed successfully in "
             ++ show processingTime ++ "ms")%string.

Definition markAsFailed (p : ProcessableMessage) (error : string) (now : Z)
    : M (t St) unit :=
  let message := processable_message p in
  modify (fun d => withInFlight d (JSMap.delete (id message) (inFlightMessages d))) ;;;
  onMetrics (MetricsCollector.recordFailure message error now) ;;;
  log Error ("Message " ++ id message ++ " failed: " ++ error)%string.

Definition updateVisibility (handle : string) (seconds now : Z) : M (t St) unit :=
  onStorage (storage_updateVisibilityTimeout adapter handle seconds now).

Definition fetchAndProcessDirectly (rateLimiter : LLMThrottle) (now : Z)
    : M (t St) (option ProcessableMessage) :=
  tryCatch
    (messages <- onStorage (storage_dequeue adapter 10 visibilityTimeout now) ;;
     if (List.length messages =? 0)%nat then ret None
     else
       selection <- selectOptimalMessage calculator messages rateLimiter now ;;
       match selection with
       | None => ret None
       | Some sel =>
           p <- prepareForProcessing (selection_message sel) now ;;
           ret (Some p)
       end)
    (fun error => log Error ("Storage fetch error: " ++ error)%string ;;; ret None).

(** [needed] in [prefetchMessages], for a buffer that holds [size] messages:
    [this.config.bufferSize || 50 - this.prefetchBuffer.size()], where the
    subtraction binds tighter than [||]. *)
Definition needed (size : nat) : Z :=
  or_default (bufferSize config) (50 - Z.of_nat size).

Definition prefetchMessages (now : Z) : M (t St) unit :=
  tryCatch
    (size <- gets (fun d => PriorityBuffer.size (prefetchBuffer d)) ;;
     if needed size <=? 0 then ret tt
     else
       messages <- onStorage (storage_dequeue adapter (needed size)
                                visibilityTimeout now) ;;
       forEach messages (fun message =>
         modify (fun d =>
           withBuffer d
             (snd (PriorityBuffer.add (prefetchBuffer d) message
                     (req_priority (payload message)) None)))) ;;;
       if (0 <? List.length messages)%nat
       then log Debug ("Prefetched " ++ show (Z.of_nat (List.length messages))
                       ++ " messages into buffer")%string
       else ret tt)
    (fun error => log Error ("Prefetch error: " ++ error)%string).

Definition dequeue (rateLimiter : LLMThrottle) (now : Z)
    : M (t St) (option ProcessableMessage) :=
  tryCatch
    (size <- gets (fun d => PriorityBuffer.size (prefetchBuffer d)) ;;
     (if (Z.of_nat size <? 10) && negb (flag (enablePrefetch config))
      then prefetchMessages now else ret tt) ;;;
     candidates <- getCandidatesFromBuffer ;;
     if (List.length candidates =? 0)%nat && negb (flag (enablePrefetch config))
     then fetchAndProcessDirectly rateLimiter now
     else
       selection <- selectOptimalMessage calculator candidates rateLimiter now ;;
       match selection with
       | None => ret None
       | Some sel =>
           modify (fun d =>
             withBuffer d
               (snd (PriorityBuffer.remove (prefetchBuffer d) (selection_message sel)))) ;;;
           p <- prepareForProcessing (selection_message sel) now ;;
           ret (Some p)
       end)
    (fun error => log Error ("Dequeue error: " ++ error)%string ;;; ret None).

(** One firing of the interval callback installed by [startPrefetchWorker]. *)
Definition prefetchTick (now : Z) : M (t St) unit :=
  prefetchMessages now ;;;
  bufferedMessages <- gets (fun d => PriorityBuffer.getAll (prefetchBuffer d)) ;;
  forEach bufferedMessages (fun message =>
    tryCatch
      (onStorage (storage_updateVisibilityTimeout adapter
                    (receiptHandle (attributes message)) visibilityTimeout now))
      (fun _ =>
         log Warn ("Failed to update visibility for message " ++ id message)%string ;;;
         modify (fun d =>
           withBuffer d (snd (PriorityBuffer.remove (prefetchBuffer d) message))))).

Definition stop (d : t St) : t St := withTimer d None.

Definition purge (now : Z) : M (t St) unit :=
  modify stop ;;;
  modify (fun d => withInFlight d JSMap.empty) ;;;
  modify (fun d => withBuffer d (PriorityBuffer.clear (prefetchBuffer d))) ;;;
  match storage_purge adapter with
  | Some p => onStorage (p now)
  | None => ret tt
  end ;;;
  log Info "Queue purged".

(** [batchEnqueue]; [storageBatch] is the adapter's optional
    [batchEnqueue] method. *)
Definition batchEnqueue
    (storageBatch : option (list LLMRequest -> Z -> M St (list QueueMessage)))
    (requests : list LLMRequest) (now : Z) : M (t St) unit :=
  match storageBatch with
  | Some batch =>
      messages <- onStorage (batch requests now) ;;
      forEach messages (fun msg =>
        onMetrics (MetricsCollector.recordEnqueue msg now)) ;;;
      log Debug ("Batch enqueued " ++ show (Z.of_nat (List.length messages))
                 ++ " messages")%string
  | None => forEach requests (fun request => enqueue request now)
  end.

End WithStorage.

End Dispatcher.


(** ** Concrete data for the worked examples *)

Module Examples.

Definition request (name : string) (p : Priority) (tokens : R) : LLMRequest :=
  mkRequest name p tokens None.

Definition sampleMessage (name : string) (p : Priority) : QueueMessage :=
  mkMessage name (request name p 100%R)
    (mkAttributes name ("receipt-" ++ name)%string 0 1%nat (Some 0)).

(** A buffer of capacity two filled with two NORMAL entries. *)
Definition fullBuffer : PriorityBuffer.t :=
  PriorityBuffer.mkBuffer
    [PriorityBuffer.mkItem (sampleMessage "a" NORMAL) NORMAL None;
     PriorityBuffer.mkItem (sampleMessage "b" NORMAL) NORMAL None]
    2.

(** The report of a collector that holds no record. *)
Definition emptyReport : QueueMetricsReport :=
  mkReport 0 (mkCounts 0 0 0 0) 0 0%R 0 0.

(** Limiter metrics with 1500 of 2000 tokens per minute available. *)
Definition sampleContext : ScoringContext :=
  mkContext (mkMetrics 1500%R 2000%R) emptyReport 30000.

(** A storage created at time 0 that received one request at time 1000. *)
Definition storedOnce : InMemoryStorage.t :=
  snd (InMemoryStorage.enqueue (request "r1" NORMAL 100%R) 1000
         (InMemoryStorage.create 0)).

(** The message that [enqueue] returned for it. *)
Definition enqueuedHandle : Result string :=
  match fst (InMemoryStorage.enqueue (request "r1" NORMAL 100%R) 1000
               (InMemoryStorage.create 0)) with
  | Ok m => Ok (receiptHandle (attributes m))
  | Throw e => Throw e
  end.

(** What a caller sees of the messages a storage [dequeue] returned. *)
Definition delivered (r : Result (list QueueMessage)) : list (string * string * nat) :=
  match r with
  | Ok l => map (fun m => (id m, receiptHandle (attributes m),
                           receiveCount (attributes m))) l
  | Throw _ => []
  end.

(** The same storage after [dequeue(1, 30)] in the millisecond of the enqueue. *)
Definition deliveredOnce : InMemoryStorage.t :=
  snd (InMemoryStorage.dequeue 1 30 1000 storedOnce).

(** [dequeue(1, 1)] at time 1000, then again at time 2000, the millisecond
    in which the first delivery's visibility ends. *)
Definition firstDelivery : InMemoryStorage.t :=
  snd (InMemoryStorage.dequeue 1 1 1000 storedOnce).

Definition secondDelivery : InMemoryStorage.t :=
  snd (InMemoryStorage.dequeue 1 1 2000 firstDelivery).

(** A delivery at time 1000 for 30 s, released at time 5000 by
    [updateVisibilityTimeout(handle, 0)] and delivered again in that same
    millisecond. *)
Definition releasedAndRedelivered : InMemoryStorage.t :=
  snd (InMemoryStorage.dequeue 1 30 5000
         (snd (InMemoryStorage.updateVisibilityTimeout "receipt-msg-1-1000" 0 5000
                 deliveredOnce))).

(** The handles of the stored messages, as [getAllMessages()] shows them. *)
Definition currentHandles (st : InMemoryStorage.t) : list (string * string) :=
  map (fun m => (id m, receiptHandle (attributes m)))
      (InMemoryStorage.getAllMessages st).

(** A limiter that refuses every request, and one that admits every request. *)
Definition denyAll : Dispatcher.LLMThrottle :=
  Dispatcher.mkThrottle
    (fun _ => Ok (Dispatcher.mkCanProcess false None))
    (Ok (mkMetrics 1500%R 2000%R)).

Definition allowAll : Dispatcher.LLMThrottle :=
  Dispatcher.mkThrottle
    (fun _ => Ok (Dispatcher.mkCanProcess true None))
    (Ok (mkMetrics 1500%R 2000%R)).

(** The empty configuration object, and one that sets [bufferSize] only. *)
Definition defaultConfig : LLMQueueDispatcherConfig :=
  mkConfig None None None None None None None.

Definition configWithBufferSize (n : Z) : LLMQueueDispatcherConfig :=
  mkConfig (Some n) None None None None None None.

(** A dispatcher over the in-memory storage that holds one message. *)
Definition freshDispatcher : Dispatcher.t InMemoryStorage.t :=
  Dispatcher.create defaultConfig storedOnce.

(** An adapter that records the limit of every [dequeue] it is asked for
    and has no message to return. *)
Definition recordingAdapter : Dispatcher.QueueStorageAdapter (list Z) :=
  Dispatcher.mkAdapter
    (fun request now => throw "enqueue is not recorded")
    (fun limit _ _ => fun seen => (Ok [], seen ++ [limit]))
    (fun _ _ => ret tt)
    (fun _ _ _ => ret tt)
    None.

(** An adapter whose every operation rejects. *)
Definition failingAdapter : Dispatcher.QueueStorageAdapter unit :=
  Dispatcher.mkAdapter
    (fun _ _ => throw "Storage error")
    (fun _ _ _ => throw "Storage error")
    (fun _ _ => throw "Storage error")
    (fun _ _ _ => throw "Storage error")
    None.

(** A dispatcher of capacity [capacity] whose buffer holds the given NORMAL
    messages, over the recording adapter. *)
Definition dispatcherHolding (capacity : Z) (names : list string)
    : Dispatcher.t (list Z) :=
  Dispatcher.mkDispatcher [] JSMap.empty
    (PriorityBuffer.mkBuffer
       (map (fun n => PriorityBuffer.mkItem (sampleMessage n NORMAL) NORMAL None) names)
       capacity)
    (MetricsCollector.create None None) [] None.

(** The configuration that only enables the prefetch worker. *)
Definition prefetchConfig : LLMQueueDispatcherConfig :=
  mkConfig None (Some true) None None None None None.

(** The handle for the sample message "a", started at time 5000. *)
Definition sampleHandle : Dispatcher.ProcessableMessage :=
  Dispatcher.mkProcessable (sampleMessage "a" NORMAL)
    (Dispatcher.mkInFlight (sampleMessage "a" NORMAL) 5000).

End Examples.


(** ** Vocabulary of the statements about the dispatcher *)

Module Statements.
Import Dispatcher.


(** The computation leaves the dispatcher's in-flight index as it was. *)
Definition keepsInFlight {St A : Type} (m : M (t St) A) : Prop :=
  forall d, inFlightMessages (snd (m d)) = inFlightMessages d.



(** The computation returns normally from every state. *)
Definition neverThrows {St A : Type} (m : M St A) : Prop :=
  forall s, exists a s', m s = (Ok a, s').

(** What the in-memory storage holds of each message's delivery state at
    time [now]: its key, its [receiveCount], and whether it is hidden. *)
Definition deliveryState (now : Z) (st : InMemoryStorage.t)
    : list (string * nat * bool) :=
  map (fun e =>
         (fst e,
          receiveCount (attributes (InMemoryStorage.message (snd e))),
          InMemoryStorage.isHidden now (snd e)))
      (InMemoryStorage.messages st).


(** The statement that [prefetchMessages] asks the storage for at most
    [B - s] messages, and for none when [s >= B], where [B] is the configured
    [bufferSize] and [s] the number of buffered messages; [seen] is what the
    recording adapter was asked for. *)
Definition prefetchWithinRoom (B : Z) (names : list string) (seen : list Z) : Prop :=
  let s := Z.of_nat (List.length names) in
  Forall (fun limit => limit <= B - s) seen /\ (s >= B -> seen = []).

(** The configuration with one option replaced. *)
Definition setBufferSize (c : LLMQueueDispatcherConfig) (v : option Z) :=
  mkConfig v (enablePrefetch c) (prefetchInterval c) (maxCandidatesToEvaluate c)
    (minScoreThreshold c) (scoring c) (metricsRetentionMs c).

Definition setPrefetchInterval (c : LLMQueueDispatcherConfig) (v : option Z) :=
  mkConfig (bufferSize c) (enablePrefetch c) v (maxCandidatesToEvaluate c)
    (minScoreThreshold c) (scoring c) (metricsRetentionMs c).

Definition setMaxCandidates (c : LLMQueueDispatcherConfig) (v : option Z) :=
  mkConfig (bufferSize c) (enablePrefetch c) (prefetchInterval c) v
    (minScoreThreshold c) (scoring c) (metricsRetentionMs c).

Definition setMinScoreThreshold (c : LLMQueueDispatcherConfig) (v : option R) :=
  mkConfig (bufferSize c) (enablePrefetch c) (prefetchInterval c)
    (maxCandidatesToEvaluate c) v (scoring c) (metricsRetentionMs c).

Definition setMetricsRetentionMs (c : LLMQueueDispatcherConfig) (v : option Z) :=
  mkConfig (bufferSize c) (enablePrefetch c) (prefetchInterval c)
    (maxCandidatesToEvaluate c) (minScoreThreshold c) (scoring c) v.

(** Two configurations give the same dispatcher: the same constructor, the
    same [dequeue] and the same tick of the prefetch worker. *)
Definition sameBehaviour (c1 c2 : LLMQueueDispatcherConfig) : Prop :=
  forall (St : Type) (adapter : QueueStorageAdapter St),
    (forall s : St, create c1 s = create c2 s) /\
    (forall rateLimiter now d,
       dequeue adapter c1 rateLimiter now d = dequeue adapter c2 rateLimiter now d) /\
    (forall now d, prefetchTick adapter c1 now d = prefetchTick adapter c2 now d).

(** The statement that an option set to 0 behaves like the absent option,
    for each numeric option of the configuration. *)
Definition zeroOptionBehavesAsAbsent : Prop :=
  forall c : LLMQueueDispatcherConfig,
    sameBehaviour (setMinScoreThreshold c (Some 0%R)) (setMinScoreThreshold c None) /\
    sameBehaviour (setBufferSize c (Some 0)) (setBufferSize c None) /\
    sameBehaviour (setPrefetchInterval c (Some 0)) (setPrefetchInterval c None) /\
    sameBehaviour (setMaxCandidates c (Some 0)) (setMaxCandidates c None) /\
    sameBehaviour (setMetricsRetentionMs c (Some 0)) (setMetricsRetentionMs c None).


End Statements.


(** ** Vocabulary of the statements about the buffer and the storage *)

Module Orders.

(** The items are in ascending order of priority value. *)
Definition byPriority (l : list PriorityBuffer.BufferItem) : Prop :=
  StronglySorted
    (fun a b => priority_value (PriorityBuffer.priority a)
                <= priority_value (PriorityBuffer.priority b)) l.

(** The items are in descending order of score. *)
Definition byScoreDescending (l : list PriorityBuffer.BufferItem) : Prop :=
  StronglySorted
    (fun a b => (PriorityBuffer.scoreOrZero b <= PriorityBuffer.scoreOrZero a)%R) l.

(** The items whose priority is at least as high as [p], and the others. *)
Definition notBehind (p : Priority) (x : PriorityBuffer.BufferItem) : bool :=
  priority_value (PriorityBuffer.priority x) <=? priority_value p.

Definition behind (p : Priority) (x : PriorityBuffer.BufferItem) : bool :=
  priority_value p <? priority_value (PriorityBuffer.priority x).

(** The priority value of an item. *)
Definition rank (x : PriorityBuffer.BufferItem) : Z :=
  priority_value (PriorityBuffer.priority x).

(** No buffered item carries the message id [mid]. *)
Definition absent (mid : string) (l : list PriorityBuffer.BufferItem) : Prop :=
  forall x, In x l -> id (PriorityBuffer.message x) <> mid.

End Orders.

Module Totals.

Local Open Scope R_scope.

(** The sum of the weighted values of the custom scorers. *)
Definition customSum (scorers : list CustomScorer) (message : QueueMessage)
    (context : ScoringContext) : R :=
  fold_right
    (fun scorer acc => scorer_calculate scorer message context * scorer_weight scorer + acc)
    0 scorers.

End Totals.

Module StorageStatements.
Import InMemoryStorage.

(** Two entries of the message map that differ at most in a deadline that
    does not hide the message at time [now]. *)
Definition sameDelivery (now : Z) (e e' : string * InMemoryMessage) : Prop :=
  fst e = fst e' /\
  message (snd e) = message (snd e') /\
  deleteAt (snd e) = deleteAt (snd e') /\
  isHidden now (snd e) = isHidden now (snd e').

(** The id that the next [enqueue] assigns. *)
Definition nextId (st : t) : string :=
  ("msg-" ++ JS.show (messageCounter st + 1))%string.

End StorageStatements.

Module DispatcherStatements.
Import Dispatcher.

(** Whenever the computation returns normally, [post] holds of the value
    returned and of the state reached. *)
Definition ensures {St A : Type} (m : M (t St) A) (post : A -> t St -> Prop) : Prop :=
  forall d a d', m d = (Ok a, d') -> post a d'.

(** The computation makes no call to the storage. *)
Definition keepsStorage {St A : Type} (m : M (t St) A) : Prop :=
  forall d, storage (snd (m d)) = storage d.

(** The prefetch buffer holds no more than its capacity. *)
Definition withinCapacity {St : Type} (d : t St) : Prop :=
  Z.of_nat (PriorityBuffer.size (prefetchBuffer d))
  <= PriorityBuffer.maxSize (prefetchBuffer d).

(** The computation keeps the buffer within its capacity and does not
    change the capacity. *)
Definition keepsCapacity {St A : Type} (m : M (t St) A) : Prop :=
  forall d, withinCapacity d ->
    withinCapacity (snd (m d)) /\
    PriorityBuffer.maxSize (prefetchBuffer (snd (m d)))
    = PriorityBuffer.maxSize (prefetchBuffer d).

(** The selection among the buffered candidates, as [dequeue] runs it when
    it neither prefetches nor fetches directly. *)
Definition selectFromBuffer {St : Type} (config : LLMQueueDispatcherConfig)
    (rateLimiter : LLMThrottle) (now : Z) (candidates : list QueueMessage)
    : M (t St) (option ProcessableMessage) :=
  tryCatch
    (bind (selectOptimalMessage config (calculator config) candidates rateLimiter now)
       (fun selection =>
          match selection with
          | None => ret None
          | Some sel =>
              bind (modify (fun d =>
                      withBuffer d
                        (snd (PriorityBuffer.remove (prefetchBuffer d)
                                (selection_message sel)))))
                (fun _ =>
                   bind (prepareForProcessing (selection_message sel) now)
                     (fun p => ret (Some p)))
          end))
    (fun error => bind (log Error ("Dequeue error: " ++ error)%string)
                    (fun _ => ret None)).

(** The limiter has answered [allowed] for the message's token estimate. *)
Definition admitted (rateLimiter : LLMThrottle) (message : QueueMessage) : Prop :=
  exists answer,
    canProcess rateLimiter (estimated (payload message)) = Ok answer /\
    allowed answer = true.

(** What holds of a handle returned by [dequeue] at time [now], in the
    state [d] reached: the limiter admitted its message, and the in-flight
    index maps the message's id to the handle's entry, started at [now]. *)
Definition handedOut {St : Type} (rateLimiter : LLMThrottle) (now : Z)
    (result : option ProcessableMessage) (d : t St) : Prop :=
  match result with
  | None => True
  | Some p =>
      admitted rateLimiter (processable_message p) /\
      processable_entry p = mkInFlight (processable_message p) now /\
      JSMap.get (id (processable_message p)) (inFlightMessages d)
      = Some (processable_entry p)
  end.

End DispatcherStatements.

(** *** Properties of the buffer *)

Module PriorityBufferFacts.
Import PriorityBuffer.

Lemma insertSorted_perm (x : BufferItem) (l : list BufferItem) :
  Permutation (insertSorted x l) (x :: l).
Proof.
  induction l as [|y l IH]; simpl.
  - apply Permutation_refl.
  - destruct (comparePriority (priority x) (priority y) <=? 0).
    + apply Permutation_refl.
    + eapply perm_trans; [apply perm_skip, IH | apply perm_swap].
Qed.

Lemma sortItems_perm (l : list BufferItem) : Permutation (sortItems l) l.
Proof.
  induction l as [|x l IH]; simpl.
  - apply perm_nil.
  - eapply perm_trans; [apply insertSorted_perm | apply perm_skip, IH].
Qed.

Lemma sortItems_length (l : list BufferItem) :
  List.length (sortItems l) = List.length l.
Proof. apply Permutation_length, sortItems_perm. Qed.

Lemma splice1_perm {A : Type} (i : nat) (l : list A) (x : A) :
  nth_error l i = Some x -> Permutation l (x :: JS.splice1 i l).
Proof.
  revert i; induction l as [|y l IH]; intros [|i] H; simpl in H; try discriminate.
  - injection H as ->. apply Permutation_refl.
  - unfold JS.splice1 in *. simpl.
    eapply perm_trans; [apply perm_skip, (IH i H) | apply perm_swap].
Qed.

(** The scan returns an index inside the array whose item has the largest
    priority value, and no earlier item has that value. *)
Lemma lowestLoop_spec (rest pre : list BufferItem) (i li : nat) (lp : Z) :
  List.length pre = i ->
  (exists y, nth_error pre li = Some y /\ priority_value (priority y) = lp) ->
  (forall x, In x pre -> priority_value (priority x) <= lp) ->
  (forall j y, (j < li)%nat -> nth_error pre j = Some y ->
               priority_value (priority y) < lp) ->
  exists low,
    nth_error (pre ++ rest) (lowestLoop rest i li lp) = Some low /\
    (forall x, In x (pre ++ rest) ->
               priority_value (priority x) <= priority_value (priority low)) /\
    (forall j y, (j < lowestLoop rest i li lp)%nat ->
                 nth_error (pre ++ rest) j = Some y ->
                 priority_value (priority y) < priority_value (priority low)).
Proof.
  revert pre i li lp.
  induction rest as [|x rest IH]; intros pre i li lp Hlen (y & Hy & Hlp) Hmax Hfirst.
  - simpl. rewrite app_nil_r. exists y. subst lp. auto.
  - simpl.
    replace (pre ++ x :: rest) with ((pre ++ [x]) ++ rest)
      by (rewrite <- app_assoc; reflexivity).
    assert (Hlen' : List.length (pre ++ [x]) = S i)
      by (rewrite length_app; simpl; lia).
    destruct (priority_value (priority x) >? lp) eqn:E.
    + apply Z.gtb_lt in E.
      apply IH; auto.
      * exists x. split; auto.
        rewrite nth_error_app2 by lia. subst i. rewrite Nat.sub_diag. reflexivity.
      * intros z Hz. apply in_app_or in Hz as [Hz | [<- | []]]; [|lia].
        specialize (Hmax z Hz). lia.
      * intros j z Hj Hz. rewrite nth_error_app1 in Hz by lia.
        apply nth_error_In in Hz. specialize (Hmax z Hz). lia.
    + assert (priority_value (priority x) <= lp).
      { destruct (Z.gtb_spec (priority_value (priority x)) lp); [discriminate | lia]. }
      assert (Hli : (li < i)%nat).
      { subst i. apply nth_error_Some. rewrite Hy. discriminate. }
      apply IH; auto.
      * exists y. split; auto. rewrite nth_error_app1 by lia. exact Hy.
      * intros z Hz. apply in_app_or in Hz as [Hz | [<- | []]]; auto.
      * intros j z Hj Hz. rewrite nth_error_app1 in Hz by lia. eauto.
Qed.

Lemma findLowestPriorityIndex_spec (l : list BufferItem) :
  l <> [] ->
  exists i low,
    findLowestPriorityIndex l = Z.of_nat i /\
    nth_error l i = Some low /\
    (forall x, In x l -> priority_value (priority x) <= priority_value (priority low)) /\
    (forall j y, (j < i)%nat -> nth_error l j = Some y ->
                 priority_value (priority y) < priority_value (priority low)).
Proof.
  destruct l as [|x rest]; [congruence | intros _].
  destruct (lowestLoop_spec rest [x] 1 0 (priority_value (priority x)))
    as (low & H1 & H2 & H3); simpl; auto.
  - exists x; auto.
  - intros y [<- | []]; lia.
  - intros j y Hj; lia.
  - exists (lowestLoop rest 1 0 (priority_value (priority x))), low.
    simpl in *. auto.
Qed.

Lemma removeFirst_length (mid : string) (l : list BufferItem) :
  (List.length (snd (removeFirst mid l)) <= List.length l)%nat.
Proof.
  induction l as [|x l IH]; simpl; auto.
  destruct (String.eqb (id (message x)) mid); simpl; [lia|].
  destruct (removeFirst mid l); simpl in *; lia.
Qed.

Lemma setScore_length (mid : string) (s : R) (l : list BufferItem) :
  List.length (snd (setScore mid s l)) = List.length l.
Proof.
  induction l as [|x l IH]; simpl; auto.
  destruct (String.eqb (id (message x)) mid); simpl; [lia|].
  destruct (setScore mid s l); simpl in *; lia.
Qed.

Lemma remove_size (b : t) (m : QueueMessage) :
  (size (snd (remove b m)) <= size b)%nat /\ maxSize (snd (remove b m)) = maxSize b.
Proof.
  unfold remove, size. pose proof (removeFirst_length (id m) (buffer b)).
  destruct (removeFirst (id m) (buffer b)); simpl in *; auto.
Qed.

Lemma updateScore_size (b : t) (mid : string) (s : R) :
  size (snd (updateScore b mid s)) = size b /\
  maxSize (snd (updateScore b mid s)) = maxSize b.
Proof.
  unfold updateScore, size. pose proof (setScore_length mid s (buffer b)).
  destruct (setScore mid s (buffer b)); simpl in *; auto.
Qed.

Lemma add_maxSize (b : t) m p s : maxSize (snd (add b m p s)) = maxSize b.
Proof.
  unfold add.
  destruct (Z.of_nat (List.length (buffer b)) >=? maxSize b); [|reflexivity].
  destruct (if findLowestPriorityIndex (buffer b) =? -1 then None else _);
    [|reflexivity].
  destruct (comparePriority p (priority b0) <? 0); reflexivity.
Qed.

(** What [add] does on a full buffer that has an occupant. *)
Lemma add_full (b : t) m p s :
  Z.of_nat (size b) >= maxSize b ->
  buffer b <> [] ->
  exists i lowest,
    findLowestPriorityIndex (buffer b) = Z.of_nat i /\
    nth_error (buffer b) i = Some lowest /\
    (forall x, In x (buffer b) ->
               priority_value (priority x) <= priority_value (priority lowest)) /\
    (priority_value p < priority_value (priority lowest) ->
       fst (add b m p s) = true /\
       buffer (snd (add b m p s)) =
         sortItems (JS.splice1 i (buffer b) ++ [mkItem m p s])) /\
    (priority_value (priority lowest) <= priority_value p ->
       add b m p s = (false, b)).
Proof.
  intros Hfull Hne.
  destruct (findLowestPriorityIndex_spec (buffer b) Hne) as (i & low & Hi & Hnth & Hmax & _).
  exists i, low. repeat split; auto.
  - unfold add. unfold size in Hfull.
    destruct (Z.geb_spec (Z.of_nat (List.length (buffer b))) (maxSize b)); [|lia].
    rewrite Hi. destruct (Z.eqb_spec (Z.of_nat i) (-1)); [lia|].
    rewrite Nat2Z.id, Hnth. unfold comparePriority.
    destruct (Z.ltb_spec (priority_value p - priority_value (priority low)) 0); [|lia].
    reflexivity.
  - unfold add. unfold size in Hfull.
    destruct (Z.geb_spec (Z.of_nat (List.length (buffer b))) (maxSize b)); [|lia].
    rewrite Hi. destruct (Z.eqb_spec (Z.of_nat i) (-1)); [lia|].
    rewrite Nat2Z.id, Hnth. unfold comparePriority.
    destruct (Z.ltb_spec (priority_value p - priority_value (priority low)) 0); [|lia].
    reflexivity.
  - intros Hle. unfold add. unfold size in Hfull.
    destruct (Z.geb_spec (Z.of_nat (List.length (buffer b))) (maxSize b)); [|lia].
    rewrite Hi. destruct (Z.eqb_spec (Z.of_nat i) (-1)); [lia|].
    rewrite Nat2Z.id, Hnth. unfold comparePriority.
    destruct (Z.ltb_spec (priority_value p - priority_value (priority low)) 0); [lia|].
    reflexivity.
Qed.

Lemma add_not_full (b : t) m p s :
  Z.of_nat (size b) < maxSize b ->
  add b m p s = (true, mkBuffer (sortItems (buffer b ++ [mkItem m p s])) (maxSize b)).
Proof.
  intros H. unfold add, size in *.
  destruct (Z.geb_spec (Z.of_nat (List.length (buffer b))) (maxSize b)); [lia|].
  reflexivity.
Qed.

Lemma add_full_empty (b : t) m p s :
  Z.of_nat (size b) >= maxSize b -> buffer b = [] -> add b m p s = (false, b).
Proof.
  intros H He. unfold add, size in *.
  destruct (Z.geb_spec (Z.of_nat (List.length (buffer b))) (maxSize b)); [|lia].
  rewrite He. reflexivity.
Qed.

(** C5.  [add] on a buffer below its capacity inserts the newcomer and
    returns [true].  On a full buffer ([size = maxSize]) it looks at an
    occupant [lowest] whose priority value is the largest in the buffer: when
    the newcomer's priority value is strictly smaller, exactly that one
    occupant leaves, the newcomer enters and the result is [true]; in every
    other case, equal priorities included, the buffer is returned unchanged
    with [false].  A buffer within its capacity stays within it after [add],
    [remove], [updateScore] and [clear]. *)
Theorem C5_add_evicts_only_for_higher_priority
    (b : t) (m : QueueMessage) (p : Priority) (s : option R) :
  let item := mkItem m p s in
  let r := add b m p s in
  (Z.of_nat (size b) < maxSize b ->
     fst r = true /\ Permutation (buffer (snd r)) (item :: buffer b)) /\
  (Z.of_nat (size b) = maxSize b ->
     (buffer b = [] /\ r = (false, b)) \/
     (exists lowest,
        In lowest (buffer b) /\
        (forall x, In x (buffer b) ->
           priority_value (priority x) <= priority_value (priority lowest)) /\
        (priority_value p < priority_value (priority lowest) ->
           fst r = true /\
           Permutation (lowest :: buffer (snd r)) (item :: buffer b) /\
           size (snd r) = size b) /\
        (priority_value (priority lowest) <= priority_value p ->
           r = (false, b)))) /\
  (Z.of_nat (size b) <= maxSize b ->
     Z.of_nat (size (snd r)) <= maxSize (snd r) /\
     (forall m', Z.of_nat (size (snd (remove b m'))) <= maxSize (snd (remove b m'))) /\
     (forall mid sc,
        Z.of_nat (size (snd (updateScore b mid sc)))
        <= maxSize (snd (updateScore b mid sc))) /\
     Z.of_nat (size (clear b)) <= maxSize (clear b)).
Proof.
  intros item r. subst r.
  assert (Hfullcase :
    Z.of_nat (size b) >= maxSize b -> buffer b <> [] ->
    exists lowest,
      In lowest (buffer b) /\
      (forall x, In x (buffer b) ->
         priority_value (priority x) <= priority_value (priority lowest)) /\
      (priority_value p < priority_value (priority lowest) ->
         fst (add b m p s) = true /\
         Permutation (lowest :: buffer (snd (add b m p s))) (item :: buffer b) /\
         size (snd (add b m p s)) = size b) /\
      (priority_value (priority lowest) <= priority_value p ->
         add b m p s = (false, b))).
  { intros Hfull Hne.
    destruct (add_full b m p s Hfull Hne) as (i & low & _ & Hnth & Hmax & Hev & Hrej).
    exists low. split; [eapply nth_error_In; eauto|]. split; [exact Hmax|].
    split; [|exact Hrej].
    intros Hlt. destruct (Hev Hlt) as (Hok & Hbuf). split; [exact Hok|].
    pose proof (splice1_perm i (buffer b) low Hnth) as Hp.
    assert (Hq : Permutation (buffer (snd (add b m p s)))
                             (item :: JS.splice1 i (buffer b))).
    { rewrite Hbuf. eapply perm_trans; [apply sortItems_perm|].
      apply Permutation_sym, Permutation_cons_append. }
    split.
    - eapply perm_trans; [apply perm_skip, Hq|].
      eapply perm_trans; [apply perm_swap|]. apply perm_skip, Permutation_sym, Hp.
    - unfold size. apply Permutation_length in Hq, Hp. simpl in *. lia. }
  split; [|split].
  - intros Hlt. rewrite (add_not_full b m p s Hlt). simpl. split; [reflexivity|].
    eapply perm_trans; [apply sortItems_perm|].
    apply Permutation_sym, Permutation_cons_append.
  - intros Heq. destruct (buffer b) eqn:Eb.
    + left. split; [reflexivity|]. apply add_full_empty; [lia | exact Eb].
    + right. rewrite <- Eb in *. apply Hfullcase; [lia | rewrite Eb; discriminate].
  - intros Hle. split; [|split; [|split]].
    + rewrite add_maxSize.
      destruct (Z_lt_ge_dec (Z.of_nat (size b)) (maxSize b)) as [Hlt | Hge].
      * rewrite (add_not_full b m p s Hlt). unfold size in *. simpl.
        rewrite sortItems_length, length_app. simpl. lia.
      * destruct (buffer b) eqn:Eb.
        -- rewrite add_full_empty; auto.
        -- rewrite <- Eb in *.
           destruct Hfullcase as (low & _ & _ & Hev & Hrej);
             [lia | rewrite Eb; discriminate |].
           destruct (Z_lt_ge_dec (priority_value p) (priority_value (priority low)))
             as [H1 | H1].
           ++ destruct (Hev H1) as (_ & _ & ->). exact Hle.
           ++ rewrite Hrej by lia. exact Hle.
    + intros m'. destruct (remove_size b m') as (H1 & ->). lia.
    + intros mid sc. destruct (updateScore_size b mid sc) as (-> & ->). exact Hle.
    + unfold clear, size in *. simpl. lia.
Qed.

(** A full buffer of two NORMAL entries accepts an URGENT newcomer. *)
Lemma C5_witness_urgent_enters_full_buffer :
  fst (add Examples.fullBuffer (Examples.sampleMessage "u" URGENT) URGENT None) = true.
Proof.
  destruct (C5_add_evicts_only_for_higher_priority
              Examples.fullBuffer (Examples.sampleMessage "u" URGENT) URGENT None)
    as (_ & Hfull & _).
  destruct (Hfull eq_refl) as [(He & _) | (lowest & Hin & _ & Hev & _)].
  - discriminate He.
  - apply Hev. destruct Hin as [<- | [<- | []]]; simpl; lia.
Defined.

(** Scenario "buffer eviction": LOW is refused by a full NORMAL buffer,
    URGENT replaces the first NORMAL entry, the size stays at the capacity. *)
Example add_eviction_scenario :
  fst (add Examples.fullBuffer (Examples.sampleMessage "l" LOW) LOW None) = false /\
  map (fun x => id (message x))
      (buffer (snd (add Examples.fullBuffer (Examples.sampleMessage "u" URGENT)
                      URGENT None)))
  = ["u"; "b"]%string.
Proof. split; reflexivity. Qed.

End PriorityBufferFacts.


(** *** Properties of the score calculator *)

Module ScoreCalculatorFacts.
Import JS ScoreCalculator.

Local Open Scope R_scope.

(** Case analysis on every boolean comparison of reals in the goal. *)
Ltac split_comparisons :=
  unfold Rgeb, Rgtb, Rleb, Rltb;
  repeat match goal with
         | |- context [Rle_dec ?a ?b] => destruct (Rle_dec a b)
         | |- context [Rlt_dec ?a ?b] => destruct (Rlt_dec a b)
         end;
  simpl.

Lemma priorityScore_bounds (p : Priority) : 0 <= calculatePriorityScore p <= 1.
Proof. destruct p; simpl; lra. Qed.

Lemma efficiencyScore_bounds (est avail limit : R) :
  0 < est -> 0 <= calculateEfficiencyScore est avail limit <= 1.
Proof.
  intros Hest. unfold calculateEfficiencyScore.
  unfold Rgeb, Rgtb, Rleb, Rltb.
  destruct (Rle_dec avail 0); cbv beta iota zeta; [lra|].
  assert (Hu : 0 < est / avail) by (apply Rdiv_lt_0_compat; lra).
  generalize dependent (est / avail). intros u Hu.
  split_comparisons; lra.
Qed.

Lemma tokenFitScore_bounds (est avail : R) :
  0 < est -> 0 <= calculateTokenFitScore est avail <= 1.
Proof.
  intros Hest. unfold calculateTokenFitScore.
  unfold Rgeb, Rgtb, Rleb, Rltb.
  destruct (Rle_dec avail 0); cbv beta iota zeta; [lra|].
  assert (Hu : 0 < est / avail) by (apply Rdiv_lt_0_compat; lra).
  generalize dependent (est / avail). intros u Hu.
  split_comparisons; lra.
Qed.

Lemma maxWaitTimes_pos (p : Priority) : 0 < maxWaitTimes p.
Proof. destruct p; simpl; lra. Qed.

Lemma waitTimeScore_bounds (waitMs : R) (p : Priority) :
  0 <= waitMs -> 0 <= calculateWaitTimeScore waitMs p <= 1.
Proof.
  intros Hw. unfold calculateWaitTimeScore. cbv zeta.
  pose proof (maxWaitTimes_pos p) as Hmax.
  assert (Hq : 0 <= waitMs / maxWaitTimes p).
  { apply Rmult_le_pos; [exact Hw|]. left. apply Rinv_0_lt_compat, Hmax. }
  assert (Hs : 0 <= Rmin (waitMs / maxWaitTimes p) 1.0 <= 1).
  { split; [apply Rmin_glb; lra|].
    eapply Rle_trans; [apply Rmin_r | lra]. }
  destruct p; try exact Hs.
  split; [apply sqrt_pos|].
  rewrite <- sqrt_1. apply sqrt_le_1_alt. lra.
Qed.

Lemma pow07_bounds (n : nat) : 0 < 0.7 ^ n <= 1.
Proof.
  induction n as [|n IH]; simpl; [lra|].
  destruct IH as (H0 & H1). split; nra.
Qed.

Lemma pow07_antitone (m n : nat) : (m <= n)%nat -> 0.7 ^ n <= 0.7 ^ m.
Proof.
  induction 1 as [|n Hle IH]; [lra|].
  simpl. pose proof (pow07_bounds n). lra.
Qed.

Lemma retryPenalty_positive_count (n : nat) :
  (1 <= n)%nat -> calculateRetryPenalty n = Rmax 0.1 (0.7 ^ n).
Proof.
  intros Hn. unfold calculateRetryPenalty.
  destruct (Nat.eqb_spec n 0); [lia | reflexivity].
Qed.

Lemma retryPenalty_bounds (n : nat) : 0.1 <= calculateRetryPenalty n <= 1.
Proof.
  unfold calculateRetryPenalty. destruct (Nat.eqb n 0); [lra|].
  pose proof (pow07_bounds n). split; [apply Rmax_l|].
  apply Rmax_lub; lra.
Qed.

Lemma normalizeProcessingTime_bounds (timeMs : R) :
  0.1 <= normalizeProcessingTime timeMs <= 1.
Proof. unfold normalizeProcessingTime. split_comparisons; lra. Qed.

Lemma processingTimeScore_bounds (est : R) (expected : option R) :
  0 <= calculateProcessingTimeScore est expected <= 1.
Proof.
  unfold calculateProcessingTimeScore.
  destruct expected as [ms|]; [destruct (Req_dec_T ms 0)|];
    match goal with
    | |- _ <= normalizeProcessingTime ?x <= _ =>
        pose proof (normalizeProcessingTime_bounds x); lra
    end.
Qed.

(** C8.  For a message with a positive token estimate that was enqueued no
    later than the context's current time, the six base scores that
    [calculateScore] computes (priority, efficiency, wait time, retry, token
    fit, processing time) lie in [0, 1]; the breakdown of the score is each
    of them times its weight. *)
Theorem C8_base_scores_in_unit_interval
    (c : ScoreCalculator.t) (message : QueueMessage) (context : ScoringContext) :
  0 < estimated (payload message) ->
  (enqueuedAt (attributes message) <= currentTime context)%Z ->
  let base := baseScores message context in
  (0 <= b_priority base <= 1 /\
   0 <= b_efficiency base <= 1 /\
   0 <= b_waitTime base <= 1 /\
   0 <= b_retry base <= 1 /\
   0 <= b_tokenFit base <= 1 /\
   0 <= b_processingTime base <= 1) /\
  breakdown (calculateScore c message context) =
    mkBreakdown
      (b_priority base * w_priority (calc_weights c))
      (b_efficiency base * w_efficiency (calc_weights c))
      (b_waitTime base * w_waitTime (calc_weights c))
      (b_retry base * w_retry (calc_weights c))
      (b_tokenFit base * w_tokenFit (calc_weights c))
      (b_processingTime base * w_processingTime (calc_weights c)).
Proof.
  intros Hest Henq base. split; [|reflexivity].
  subst base. unfold baseScores. simpl.
  repeat split;
    try apply priorityScore_bounds;
    try (apply efficiencyScore_bounds; exact Hest);
    try (apply tokenFitScore_bounds; exact Hest);
    try apply processingTimeScore_bounds;
    try (pose proof (retryPenalty_bounds (receiveCount (attributes message))); lra);
    apply waitTimeScore_bounds, IZR_le; lia.
Qed.

(** A NORMAL message of 100 tokens, enqueued at time 0 and scored at 30 s. *)
Lemma C8_witness_sample_message :
  let base := baseScores (Examples.sampleMessage "a" NORMAL) Examples.sampleContext in
  0 <= b_priority base <= 1 /\
  0 <= b_efficiency base <= 1 /\
  0 <= b_waitTime base <= 1 /\
  0 <= b_retry base <= 1 /\
  0 <= b_tokenFit base <= 1 /\
  0 <= b_processingTime base <= 1.
Proof.
  apply (C8_base_scores_in_unit_interval
           (ScoreCalculator.create (mkScoringConfig None None))
           (Examples.sampleMessage "a" NORMAL) Examples.sampleContext).
  - simpl. lra.
  - simpl. lia.
Defined.

(** C9.  The retry penalty is 1 at count 0 and [max(0.1, 0.7^count)] from
    count 1 on; it does not increase with the count and is never below 0.1. *)
Theorem C9_retry_penalty_antitone_with_floor :
  calculateRetryPenalty 0 = 1 /\
  (forall n : nat, (1 <= n)%nat -> calculateRetryPenalty n = Rmax 0.1 (0.7 ^ n)) /\
  (forall m n : nat, (m <= n)%nat ->
     calculateRetryPenalty n <= calculateRetryPenalty m) /\
  (forall n : nat, 0.1 <= calculateRetryPenalty n).
Proof.
  split; [unfold calculateRetryPenalty; simpl; lra|].
  split; [exact retryPenalty_positive_count|]. split.
  - intros m n Hmn. destruct m as [|m].
    + change (calculateRetryPenalty 0) with 1.0.
      pose proof (retryPenalty_bounds n). lra.
    + rewrite !retryPenalty_positive_count by lia.
      pose proof (pow07_antitone (S m) n Hmn).
      apply Rmax_lub; [apply Rmax_l|].
      eapply Rle_trans; [eassumption | apply Rmax_r].
  - intros n. apply retryPenalty_bounds.
Qed.

(** One delivery against three: the penalty falls from 0.7 to 0.343. *)
Lemma C9_witness_one_against_three :
  calculateRetryPenalty 3 <= calculateRetryPenalty 1 /\
  calculateRetryPenalty 3 = Rmax 0.1 (0.7 ^ 3).
Proof.
  destruct C9_retry_penalty_antitone_with_floor as (_ & Hform & Hmono & _).
  split; [apply (Hmono 1%nat 3%nat); lia | apply (Hform 3%nat); lia].
Defined.

End ScoreCalculatorFacts.


(** *** Properties of the in-memory storage *)

Module InMemoryStorageFacts.
Import InMemoryStorage.

Lemma get_delete_same {V : Type} (k : string) (m : JSMap.t V) :
  JSMap.get k (JSMap.delete k m) = None.
Proof.
  induction m as [|[k' v] m IH]; simpl; [reflexivity|].
  destruct (String.eqb k' k) eqn:E; simpl; [exact IH|].
  rewrite E. exact IH.
Qed.

(** Every message collected by the delivery loop has been delivered at
    least once. *)
Lemma collect_receiveCount entries limit vts now results msgs infl :
  Forall (fun m => (1 <= receiveCount (attributes m))%nat) results ->
  Forall (fun m => (1 <= receiveCount (attributes m))%nat)
         (fst (fst (collect entries limit vts now results msgs infl))).
Proof.
  revert results msgs infl.
  induction entries as [|[key inMemMsg] rest IH]; intros results msgs infl H;
    simpl; [exact H|].
  destruct (Z.of_nat (List.length results) >=? limit); [exact H|].
  destruct (isHidden now inMemMsg); [apply IH, H|].
  destruct (isDue now inMemMsg); [apply IH, H|].
  apply IH. apply Forall_app. split; [exact H|].
  constructor; [simpl; lia | constructor].
Qed.

Lemma dequeue_receiveCount (limit vts now : Z) (st : t) :
  exists results st',
    dequeue limit vts now st = (Ok results, st') /\
    Forall (fun m => (1 <= receiveCount (attributes m))%nat) results.
Proof.
  unfold dequeue.
  destruct (fold_left (reapStep now) (inFlight st) (messages st, inFlight st))
    as [msgs1 infl1].
  pose proof (collect_receiveCount msgs1 limit vts now [] msgs1 infl1 (Forall_nil _)) as H.
  destruct (collect msgs1 limit vts now [] msgs1 infl1) as [[results msgs2] infl2].
  eexists _, _. split; [reflexivity | exact H].
Qed.

(** [deleteMessage h] follows the in-flight index.  When [h] is a key of
    the index the call succeeds, the message it stands for is gone from the
    storage and [h] from the index; when it is not, the call fails with the
    not-found error and the storage is unchanged.  After a successful
    [deleteMessage h], and after a successful [markAsProcessed] that read
    the receipt handle [h], a second call with the same handle fails with
    not-found. *)
Lemma deleteMessage_follows_index (st : t) (h : string) (now : Z) :
  (fst (deleteMessage h now st) = Ok tt <->
   exists mid, JSMap.get h (inFlight st) = Some mid) /\
  (JSMap.get h (inFlight st) = None ->
   deleteMessage h now st = (Throw (notFound h), st)) /\
  (forall mid, JSMap.get h (inFlight st) = Some mid ->
   exists st',
     deleteMessage h now st = (Ok tt, st') /\
     messages st' = JSMap.delete mid (messages st) /\
     JSMap.get mid (messages st') = None /\
     inFlight st' = JSMap.delete h (inFlight st) /\
     forall now', deleteMessage h now' st' = (Throw (notFound h), st')) /\
  (forall (p : Dispatcher.ProcessableMessage)
          (d d' : Dispatcher.t InMemoryStorage.t) (now' : Z),
   Dispatcher.storage d = st ->
   Dispatcher.markAsProcessed Dispatcher.inMemoryAdapter p h now d = (Ok tt, d') ->
   Dispatcher.markAsProcessed Dispatcher.inMemoryAdapter p h now' d'
   = (Throw (notFound h), d')).
Proof.
  assert (Hsecond : forall mid now',
    JSMap.get h (inFlight st) = Some mid ->
    deleteMessage h now'
      (mkStorage (JSMap.delete mid (messages st)) (JSMap.delete h (inFlight st))
         (messageCounter st) (createdAt st) now)
    = (Throw (notFound h),
       mkStorage (JSMap.delete mid (messages st)) (JSMap.delete h (inFlight st))
         (messageCounter st) (createdAt st) now)).
  { intros mid now' _. unfold deleteMessage. simpl.
    rewrite get_delete_same. reflexivity. }
  split; [|split; [|split]].
  - unfold deleteMessage. destruct (JSMap.get h (inFlight st)) as [mid|]; simpl.
    + split; eauto.
    + split; [discriminate | intros (mid & Hm); discriminate].
  - intros Hnone. unfold deleteMessage. rewrite Hnone. reflexivity.
  - intros mid Hsome. eexists. split.
    + unfold deleteMessage. rewrite Hsome. reflexivity.
    + simpl. repeat split; auto using get_delete_same.
  - intros p d d' now' Hst Hfirst.
    unfold Dispatcher.markAsProcessed, bind, Dispatcher.onStorage in *.
    simpl in *. rewrite Hst in *.
    unfold deleteMessage in Hfirst.
    destruct (JSMap.get h (inFlight st)) as [mid|] eqn:Hget; [|discriminate].
    simpl in Hfirst. injection Hfirst as <-. simpl.
    rewrite (Hsecond mid now' eq_refl). reflexivity.
Qed.

(** The handle of a delivered message deletes it once; the second call fails. *)
Example delete_twice :
  exists st',
    deleteMessage "receipt-msg-1-1000" 2000 Examples.deliveredOnce = (Ok tt, st') /\
    forall now',
      deleteMessage "receipt-msg-1-1000" now' st'
      = (Throw (notFound "receipt-msg-1-1000"), st').
Proof.
  destruct (deleteMessage_follows_index
              Examples.deliveredOnce "receipt-msg-1-1000" 2000)
    as (_ & _ & Hdel & _).
  destruct (Hdel "msg-1"%string) as (st' & H1 & _ & _ & _ & H2).
  - vm_compute. reflexivity.
  - exists st'. split; [exact H1 | exact H2].
Qed.

(** C7, at two inputs the storage can receive.  After a delivery at time
    1000 with one second of visibility and a second delivery at time 2000,
    the message's receipt handle is the one of the second delivery; yet
    [deleteMessage] with the handle of the first delivery succeeds and
    removes the message, and a later [deleteMessage] with the handle of the
    second delivery succeeds as well instead of failing with not-found.  The
    same happens when a delivery is released with
    [updateVisibilityTimeout(handle, 0)] and the message is delivered again
    in that millisecond. *)
Theorem C7_superseded_handle_still_deletes :
  Examples.currentHandles Examples.secondDelivery
  = [("msg-1", "receipt-msg-1-2000")]%string /\
  fst (deleteMessage "receipt-msg-1-1000" 2000 Examples.secondDelivery) = Ok tt /\
  Examples.currentHandles
    (snd (deleteMessage "receipt-msg-1-1000" 2000 Examples.secondDelivery)) = [] /\
  fst (deleteMessage "receipt-msg-1-2000" 2000
         (snd (deleteMessage "receipt-msg-1-1000" 2000 Examples.secondDelivery)))
  = Ok tt /\
  Examples.currentHandles Examples.releasedAndRedelivered
  = [("msg-1", "receipt-msg-1-5000")]%string /\
  fst (deleteMessage "receipt-msg-1-1000" 5000 Examples.releasedAndRedelivered) = Ok tt /\
  Examples.currentHandles
    (snd (deleteMessage "receipt-msg-1-1000" 5000 Examples.releasedAndRedelivered)) = [].
Proof. repeat split; vm_compute; reflexivity. Qed.

(** C6, at two inputs the storage can receive.  First: a [dequeue] in the
    millisecond of the [enqueue] returns the message with [receiveCount] 1
    and with the very receipt handle that [enqueue] assigned.  Second: a
    message delivered at time 1000 with a visibility of one second and
    delivered again at time 2000 gets a new handle, yet the handle of the
    first delivery is still a key of the in-flight index, and both
    [deleteMessage] and [updateVisibilityTimeout] accept it. *)
Theorem C6_handle_reused_and_stale_handle_accepted :
  Examples.enqueuedHandle = Ok "receipt-msg-1-1000"%string /\
  Examples.delivered (fst (dequeue 1 30 1000 Examples.storedOnce))
  = [("msg-1", "receipt-msg-1-1000", 1%nat)]%string /\
  Examples.delivered (fst (dequeue 1 1 1000 Examples.storedOnce))
  = [("msg-1", "receipt-msg-1-1000", 1%nat)]%string /\
  Examples.delivered (fst (dequeue 1 1 2000 Examples.firstDelivery))
  = [("msg-1", "receipt-msg-1-2000", 2%nat)]%string /\
  inFlight Examples.secondDelivery
  = [("receipt-msg-1-1000", "msg-1"); ("receipt-msg-1-2000", "msg-1")]%string /\
  fst (deleteMessage "receipt-msg-1-1000" 2000 Examples.secondDelivery) = Ok tt /\
  fst (updateVisibilityTimeout "receipt-msg-1-1000" 30 2000 Examples.secondDelivery)
  = Ok tt.
Proof. repeat split; vm_compute; reflexivity. Qed.

(** One millisecond later the clean-up does revoke the first handle. *)
Example stale_handle_revoked_after_expiry :
  inFlight (snd (dequeue 1 1 2001 Examples.firstDelivery))
  = [("receipt-msg-1-2001", "msg-1")]%string /\
  fst (deleteMessage "receipt-msg-1-1000" 2001
         (snd (dequeue 1 1 2001 Examples.firstDelivery)))
  = Throw (notFound "receipt-msg-1-1000").
Proof. split; vm_compute; reflexivity. Qed.

End InMemoryStorageFacts.


(** *** Properties of the dispatcher *)

Module DispatcherFacts.
Import JS Dispatcher Statements DispatcherStatements.
Import Effect.Notations.

Create HintDb frame.

Section Frames.

Context {St : Type}.
Variable adapter : QueueStorageAdapter St.
Variable config : LLMQueueDispatcherConfig.

Lemma keeps_ret {A : Type} (a : A) : keepsInFlight (St := St) (ret a).
Proof. intros d. reflexivity. Qed.

Lemma keeps_gets {A : Type} (f : t St -> A) : keepsInFlight (gets f).
Proof. intros d. reflexivity. Qed.

Lemma keeps_liftResult {A : Type} (r : Result A) :
  keepsInFlight (St := St) (liftResult r).
Proof. intros d. reflexivity. Qed.

Lemma keeps_bind {A B : Type} (m : M (t St) A) (k : A -> M (t St) B) :
  keepsInFlight m -> (forall a, keepsInFlight (k a)) -> keepsInFlight (bind m k).
Proof.
  intros Hm Hk d. unfold bind. specialize (Hm d).
  destruct (m d) as [[a|e] d1]; simpl in *.
  - rewrite Hk. exact Hm.
  - exact Hm.
Qed.

Lemma keeps_tryCatch {A : Type} (m : M (t St) A) (h : string -> M (t St) A) :
  keepsInFlight m -> (forall e, keepsInFlight (h e)) -> keepsInFlight (tryCatch m h).
Proof.
  intros Hm Hh d. unfold tryCatch. specialize (Hm d).
  destruct (m d) as [[a|e] d1]; simpl in *.
  - exact Hm.
  - rewrite Hh. exact Hm.
Qed.

Lemma keeps_forEach {A : Type} (l : list A) (body : A -> M (t St) unit) :
  (forall x, keepsInFlight (body x)) -> keepsInFlight (forEach l body).
Proof.
  intros Hb. induction l as [|x l IH]; simpl.
  - apply keeps_ret.
  - apply keeps_bind; auto.
Qed.

Lemma keeps_onStorage {A : Type} (op : M St A) : keepsInFlight (onStorage op).
Proof. intros d. unfold onStorage. destruct (op (storage d)). reflexivity. Qed.

Lemma keeps_log (level : LogLevel) (line : string) :
  keepsInFlight (St := St) (log level line).
Proof. intros d. reflexivity. Qed.

Lemma keeps_onMetrics (method : MetricsCollector.t -> MetricsCollector.t) :
  keepsInFlight (St := St) (onMetrics method).
Proof. intros d. reflexivity. Qed.

Lemma keeps_getReport (now : Z) : keepsInFlight (St := St) (getReport now).
Proof.
  intros d. unfold getReport.
  destruct (MetricsCollector.getReport now (metrics d)). reflexivity.
Qed.

Lemma keeps_withBuffer (f : t St -> PriorityBuffer.t) :
  keepsInFlight (modify (fun d => withBuffer d (f d))).
Proof. intros d. reflexivity. Qed.

Hint Resolve keeps_ret keeps_gets keeps_liftResult keeps_onStorage keeps_log
  keeps_onMetrics keeps_getReport keeps_withBuffer : frame.


Lemma keeps_prefetchMessages (now : Z) :
  keepsInFlight (prefetchMessages adapter config now).
Proof.
  unfold prefetchMessages.
  apply keeps_tryCatch; [|auto with frame].
  apply keeps_bind; [auto with frame|]. intros size.
  destruct (needed config size <=? 0); [auto with frame|].
  apply keeps_bind; [auto with frame|]. intros messages.
  apply keeps_bind.
  - apply keeps_forEach. intros message. apply keeps_withBuffer.
  - intros _. destruct (0 <? List.length messages)%nat; auto with frame.
Qed.


(** *** Computations that make no storage call *)


Lemma keepsStorage_gets {A : Type} (f : t St -> A) : keepsStorage (gets f).
Proof. intros d. reflexivity. Qed.





Lemma keepsStorage_onMetrics (method : MetricsCollector.t -> MetricsCollector.t) :
  keepsStorage (St := St) (onMetrics method).
Proof. intros d. reflexivity. Qed.






(** With the worker enabled [dequeue] is that selection. *)
Lemma dequeue_prefetch_enabled (rateLimiter : LLMThrottle) (now : Z) (d : t St) :
  flag (enablePrefetch config) = true ->
  dequeue adapter config rateLimiter now d
  = selectFromBuffer config rateLimiter now
      (PriorityBuffer.peekByPriority (prefetchBuffer d)
         (Some (or_default (maxCandidatesToEvaluate config) 20))) d.
Proof.
  intros Hon.
  unfold dequeue, selectFromBuffer, getCandidatesFromBuffer, tryCatch, bind, gets, ret.
  rewrite Hon. cbn [negb].
  repeat first [rewrite andb_false_r | progress cbv beta iota zeta].
  reflexivity.
Qed.


(** *** Totality of the dequeue path *)

Lemma tryCatch_neverThrows {S' A : Type} (m : M S' A) (h : string -> M S' A) :
  (forall e, neverThrows (h e)) -> neverThrows (tryCatch m h).
Proof.
  intros Hh s. unfold tryCatch. destruct (m s) as [[a|e] s1].
  - eauto.
  - apply Hh.
Qed.

Lemma log_then_return_neverThrows {A : Type} (level : LogLevel) (line : string) (a : A) :
  neverThrows (St := t St) (log level line ;;; ret a).
Proof. intros d. eexists _, _. reflexivity. Qed.

Lemma log_neverThrows (level : LogLevel) (line : string) :
  neverThrows (St := t St) (log level line).
Proof. intros d. eexists _, _. reflexivity. Qed.

Lemma prefetchMessages_neverThrows (now : Z) :
  neverThrows (prefetchMessages adapter config now).
Proof. apply tryCatch_neverThrows. intros e. apply log_neverThrows. Qed.

Lemma fetchAndProcessDirectly_neverThrows (rateLimiter : LLMThrottle) (now : Z) :
  neverThrows (fetchAndProcessDirectly adapter config rateLimiter now).
Proof.
  apply tryCatch_neverThrows. intros e. apply log_then_return_neverThrows.
Qed.

(** *** An all-denying limiter *)












End Frames.

(** C4.  Whatever the storage adapter and the rate limiter do, throwing
    included, [dequeue] returns normally: its result is a handle or [null]. *)
Theorem C4_dequeue_never_throws
    (St : Type) (adapter : QueueStorageAdapter St)
    (config : LLMQueueDispatcherConfig) (rateLimiter : LLMThrottle)
    (now : Z) (d : t St) :
  exists (result : option ProcessableMessage) (d' : t St),
    dequeue adapter config rateLimiter now d = (Ok result, d').
Proof.
  revert d. change (neverThrows (dequeue adapter config rateLimiter now)).
  unfold dequeue. apply tryCatch_neverThrows.
  intros e. apply log_then_return_neverThrows.
Qed.

(** A storage whose every operation rejects: [dequeue] logs and returns
    [null], while [enqueue] and [markAsProcessed] pass the rejection on. *)
Example failing_storage_dequeue_returns_null :
  let d := create Examples.defaultConfig tt in
  let r := dequeue Examples.failingAdapter Examples.defaultConfig Examples.allowAll 5000 d in
  fst r = Ok None /\
  logged (snd r) =
    [(Error, "Prefetch error: Storage error");
     (Error, "Storage fetch error: Storage error")]%string /\
  fst (enqueue Examples.failingAdapter (Examples.request "r1" NORMAL 100%R) 5000 d)
  = Throw "Storage error"%string.
Proof. repeat split; vm_compute; reflexivity. Qed.





Example denied_dequeue_delivery_state :
  deliveryState 5000 (storage Examples.freshDispatcher) = [("msg-1"%string, 0%nat, false)] /\
  deliveryState 5000
    (storage (snd (dequeue inMemoryAdapter Examples.defaultConfig Examples.denyAll
                     5000 Examples.freshDispatcher)))
  = [("msg-1"%string, 1%nat, true)].
Proof. split; vm_compute; reflexivity. Qed.

(** *** Selection *)

Section Selection.

Context {Score : Type}.
Variable scorer : Calculator Score.

Local Open Scope R_scope.









End Selection.




(** *** Prefetch *)

Lemma needed_configured (config : LLMQueueDispatcherConfig) (B : Z) (size : nat) :
  bufferSize config = Some B -> B <> 0 -> needed config size = B.
Proof.
  intros HB Hnz. unfold needed, or_default. rewrite HB.
  destruct (Z.eqb_spec B 0); [contradiction | reflexivity].
Qed.

Lemma needed_default (config : LLMQueueDispatcherConfig) (size : nat) :
  bufferSize config = None -> needed config size = 50 - Z.of_nat size.
Proof. intros HB. unfold needed, or_default. rewrite HB. reflexivity. Qed.

(** C1, at two inputs.  With [bufferSize] configured as 5, [prefetchMessages]
    on a buffer that holds three messages asks the storage for 5 messages,
    not for at most 2; on a buffer that holds five messages, which is full,
    it still asks the storage for 5.  The same requests are made when
    [dequeue] runs its prefetch step.  The recorded limits do not satisfy
    the bound [B - s]. *)
Theorem C1_prefetch_requests_capacity_not_room :
  storage (snd (prefetchMessages Examples.recordingAdapter
                  (Examples.configWithBufferSize 5) 5000
                  (Examples.dispatcherHolding 5 ["a"; "b"; "c"]%string))) = [5] /\
  storage (snd (prefetchMessages Examples.recordingAdapter
                  (Examples.configWithBufferSize 5) 5000
                  (Examples.dispatcherHolding 5 ["a"; "b"; "c"; "d"; "e"]%string))) = [5] /\
  storage (snd (dequeue Examples.recordingAdapter
                  (Examples.configWithBufferSize 5) Examples.denyAll 5000
                  (Examples.dispatcherHolding 5 ["a"; "b"; "c"; "d"; "e"]%string))) = [5] /\
  ~ prefetchWithinRoom 5 ["a"; "b"; "c"]%string [5] /\
  ~ prefetchWithinRoom 5 ["a"; "b"; "c"; "d"; "e"]%string [5].
Proof.
  split; [vm_compute; reflexivity|].
  split; [vm_compute; reflexivity|].
  split; [vm_compute; reflexivity|].
  split.
  - intros (Hall & _). inversion Hall as [|? ? Hle _]. simpl in Hle. lia.
  - intros (_ & Hnone). simpl in Hnone. discriminate Hnone. lia.
Qed.

(** With [bufferSize] 1 over the in-memory storage that holds two messages:
    the first denied [dequeue] buffers one message, and the second one, on a
    full buffer, asks the storage again; the message it is given is refused
    by the buffer and stays hidden in the storage. *)
Example full_buffer_still_prefetches :
  let config := Examples.configWithBufferSize 1 in
  let d0 := create config
              (snd (InMemoryStorage.enqueue (Examples.request "r2" NORMAL 100%R) 1000
                      Examples.storedOnce)) in
  let d1 := snd (dequeue inMemoryAdapter config Examples.denyAll 2000 d0) in
  let d2 := snd (dequeue inMemoryAdapter config Examples.denyAll 3000 d1) in
  map id (PriorityBuffer.getAll (prefetchBuffer d1)) = ["msg-1"%string] /\
  deliveryState 3000 (storage d1)
  = [("msg-1", 1%nat, true); ("msg-2", 0%nat, false)]%string /\
  map id (PriorityBuffer.getAll (prefetchBuffer d2)) = ["msg-1"%string] /\
  deliveryState 3000 (storage d2)
  = [("msg-1", 1%nat, true); ("msg-2", 1%nat, true)]%string.
Proof. repeat split; vm_compute; reflexivity. Qed.

(** Without a configured [bufferSize] the request is the room left in a
    buffer of 50. *)
Example prefetch_default_requests_room :
  storage (snd (prefetchMessages Examples.recordingAdapter Examples.defaultConfig 5000
                  (Examples.dispatcherHolding 50 ["a"; "b"; "c"]%string))) = [47].
Proof. vm_compute. reflexivity. Qed.

(** *** Defaults *)

Lemma or_defaultR_zero (fallback : R) : or_defaultR (Some 0%R) fallback = fallback.
Proof.
  unfold or_defaultR. destruct (Req_dec_T 0%R 0%R) as [_ | Hne];
    [reflexivity | contradiction Hne; reflexivity].
Qed.

(** C10, as amended.  Each of the four options [minScoreThreshold],
    [bufferSize], [prefetchInterval] and [maxCandidatesToEvaluate], when set
    to 0, gives what the absent option gives: threshold 0.1, capacity 50, a
    tick every 5000 ms, at most 20 candidates; and the constructor,
    [selectOptimalMessage], [dequeue] and the prefetch tick of the two
    configurations coincide.  [metricsRetentionMs] is different: the
    collector takes its default by a default parameter, so 0 is kept as a
    retention of 0 ms, where the absent option gives 300000 ms. *)
Theorem C10_zero_option_behaves_as_absent (c : LLMQueueDispatcherConfig) :
  (or_defaultR (minScoreThreshold (setMinScoreThreshold c (Some 0%R))) 0.1%R = 0.1%R /\
   (forall (St Score : Type) (scorer : Calculator Score) candidates rateLimiter now
           (d : t St),
      selectOptimalMessage (setMinScoreThreshold c (Some 0%R)) scorer candidates
        rateLimiter now d
      = selectOptimalMessage (setMinScoreThreshold c None) scorer candidates
          rateLimiter now d) /\
   sameBehaviour (setMinScoreThreshold c (Some 0%R)) (setMinScoreThreshold c None)) /\
  ((forall (St : Type) (s : St),
      PriorityBuffer.maxSize (prefetchBuffer (create (setBufferSize c (Some 0)) s)) = 50) /\
   sameBehaviour (setBufferSize c (Some 0)) (setBufferSize c None)) /\
  ((forall (St : Type) (d : t St),
      prefetchIntervalTimer (startPrefetchWorker (setPrefetchInterval c (Some 0)) d)
      = Some 5000) /\
   sameBehaviour (setPrefetchInterval c (Some 0)) (setPrefetchInterval c None)) /\
  ((forall (St : Type) (d : t St),
      fst (getCandidatesFromBuffer (setMaxCandidates c (Some 0)) d)
      = Ok (map PriorityBuffer.message (firstn 20 (PriorityBuffer.buffer (prefetchBuffer d))))) /\
   sameBehaviour (setMaxCandidates c (Some 0)) (setMaxCandidates c None)) /\
  (forall (St : Type) (s : St),
     MetricsCollector.retentionMs (metrics (create (setMetricsRetentionMs c (Some 0)) s)) = 0 /\
     MetricsCollector.retentionMs (metrics (create (setMetricsRetentionMs c None) s)) = 300000 /\
     create (setMetricsRetentionMs c (Some 0)) s <> create (setMetricsRetentionMs c None) s).
Proof.
  assert (Hselect : forall (St Score : Type) (scorer : Calculator Score) candidates
                           rateLimiter now (d : t St),
      selectOptimalMessage (setMinScoreThreshold c (Some 0%R)) scorer candidates
        rateLimiter now d
      = selectOptimalMessage (setMinScoreThreshold c None) scorer candidates
          rateLimiter now d).
  { intros St Score scorer candidates rateLimiter now d. unfold selectOptimalMessage.
    cbn [minScoreThreshold setMinScoreThreshold].
    rewrite or_defaultR_zero. reflexivity. }
  split; [|split; [|split; [|split]]].
  - split; [apply or_defaultR_zero|]. split; [exact Hselect|].
    intros St adapter. split; [|split]; [intros; reflexivity | | intros; reflexivity].
    intros rateLimiter now d.
    unfold dequeue, fetchAndProcessDirectly, selectOptimalMessage.
    cbn [minScoreThreshold setMinScoreThreshold].
    rewrite or_defaultR_zero. reflexivity.
  - split.
    + intros St s. unfold create. cbn [enablePrefetch setBufferSize].
      destruct (flag (enablePrefetch c)); reflexivity.
    + intros St adapter. split; [|split]; intros; reflexivity.
  - split; [intros; reflexivity|].
    intros St adapter. split; [|split]; intros; reflexivity.
  - split; [intros; reflexivity|].
    intros St adapter. split; [|split]; intros; reflexivity.
  - intros St s. unfold create. cbn [enablePrefetch metricsRetentionMs setMetricsRetentionMs].
    destruct (flag (enablePrefetch c)); cbn; (split; [reflexivity|]);
      (split; [reflexivity|]); intros Heq; inversion Heq.
Qed.

(** C10, as stated, fails for [metricsRetentionMs]: the dispatcher built
    with 0 keeps a collector that retains nothing, the one built without the
    option a collector that retains five minutes. *)
Lemma C10_counterexample_metrics_retention :
  ~ zeroOptionBehavesAsAbsent.
Proof.
  intros H.
  destruct (H Examples.defaultConfig) as (_ & _ & _ & _ & Hsame).
  destruct (Hsame unit Examples.failingAdapter) as (Hcreate & _).
  specialize (Hcreate tt). inversion Hcreate.
Qed.

(** What the difference does: a record written at time 1000 is counted by
    a report taken at that time under the default retention, and already
    dropped under the retention 0. *)
Example zero_retention_forgets_at_once :
  let record :=
    MetricsCollector.mkMetric 1000 MetricsCollector.EnqueueEvent "msg-1" NORMAL None None in
  let reported := fun config =>
    totalMessages
      (fst (MetricsCollector.getReport 1000
              (MetricsCollector.mkCollector [record]
                 (MetricsCollector.retentionMs (metrics (create config tt))) 10000))) in
  reported (setMetricsRetentionMs Examples.defaultConfig (Some 0)) = 0 /\
  reported (setMetricsRetentionMs Examples.defaultConfig None) = 1.
Proof. split; vm_compute; reflexivity. Qed.

End DispatcherFacts.


(** *** Order and round trips of the buffer *)

Module PriorityBufferOrder.
Import PriorityBuffer Orders PriorityBufferFacts.

Lemma byPriority_ranks (l : list BufferItem) :
  byPriority l <-> StronglySorted Z.le (map rank l).
Proof.
  unfold byPriority. induction l as [|x l IH]; simpl.
  - split; constructor.
  - split; intros H; inversion H as [|? ? Hs Hall]; subst; constructor.
    + apply IH, Hs.
    + apply Forall_forall. intros z Hz. apply in_map_iff in Hz as (y & <- & Hy).
      rewrite Forall_forall in Hall. apply Hall, Hy.
    + apply IH, Hs.
    + apply Forall_forall. intros y Hy. rewrite Forall_forall in Hall.
      apply (Hall (rank y)), in_map, Hy.
Qed.

Lemma insertSorted_in_front (a : BufferItem) (l : list BufferItem) :
  Forall (fun y => rank a <= rank y) l -> insertSorted a l = a :: l.
Proof.
  intros H. destruct l as [|y l]; [reflexivity|]. simpl.
  inversion H as [|? ? Hy _]; subst. unfold comparePriority. fold (rank a) (rank y).
  destruct (Z.leb_spec (rank a - rank y) 0); [reflexivity | lia].
Qed.

Lemma insertSorted_sorted (x : BufferItem) (l : list BufferItem) :
  byPriority l -> byPriority (insertSorted x l).
Proof.
  unfold byPriority. induction l as [|y l IH]; intros Hs; simpl.
  - repeat constructor.
  - inversion Hs as [|? ? Hl Hall]; subst.
    unfold comparePriority. fold (rank x) (rank y).
    destruct (Z.leb_spec (rank x - rank y) 0) as [Hle | Hgt].
    + constructor; [exact Hs|]. constructor; [unfold rank in *; lia|].
      eapply Forall_impl; [|exact Hall]. unfold rank in *. simpl. intros; lia.
    + constructor; [apply IH, Hl|].
      eapply Permutation_Forall; [apply Permutation_sym, insertSorted_perm|].
      constructor; [unfold rank in *; lia | exact Hall].
Qed.

Lemma sortItems_sorted (l : list BufferItem) : byPriority (sortItems l).
Proof.
  induction l as [|x l IH]; simpl.
  - constructor.
  - apply insertSorted_sorted, IH.
Qed.

Lemma filter_keeps_all {A : Type} (f : A -> bool) (l : list A) :
  Forall (fun x => f x = true) l -> filter f l = l.
Proof.
  induction 1 as [|x l Hx _ IH]; simpl; [reflexivity|].
  rewrite Hx, IH. reflexivity.
Qed.

Lemma filter_keeps_none {A : Type} (f : A -> bool) (l : list A) :
  Forall (fun x => f x = false) l -> filter f l = [].
Proof.
  induction 1 as [|x l Hx _ IH]; simpl; [reflexivity|].
  rewrite Hx, IH. reflexivity.
Qed.

(** A sorted buffer is its part not behind [p] followed by its part behind [p]. *)
Lemma sorted_split (p : Priority) (l : list BufferItem) :
  byPriority l -> filter (notBehind p) l ++ filter (behind p) l = l.
Proof.
  unfold byPriority. induction 1 as [|a l Hs IH Hall]; simpl; [reflexivity|].
  unfold notBehind at 1, behind at 1. fold (rank a).
  destruct (Z.leb_spec (rank a) (priority_value p)) as [Hle | Hgt];
    destruct (Z.ltb_spec (priority_value p) (rank a)); try lia.
  - simpl. rewrite IH. reflexivity.
  - rewrite filter_keeps_none, filter_keeps_all; [reflexivity | |];
      (eapply Forall_impl; [|exact Hall]); simpl; intros y Hy;
      unfold behind, notBehind, rank in *.
    + apply Z.ltb_lt. lia.
    + apply Z.leb_gt. lia.
Qed.

(** Sorting a sorted buffer with one item pushed at its end. *)
Lemma sortItems_push (x : BufferItem) (l : list BufferItem) :
  byPriority l ->
  sortItems (l ++ [x])
  = filter (notBehind (priority x)) l ++ x :: filter (behind (priority x)) l.
Proof.
  unfold byPriority. induction 1 as [|a l Hs IH Hall]; [reflexivity|].
  change (sortItems ((a :: l) ++ [x])) with (insertSorted a (sortItems (l ++ [x]))).
  rewrite IH. simpl filter.
  destruct (Z.le_gt_cases (rank a) (rank x)) as [Hle | Hgt].
  - assert (E1 : notBehind (priority x) a = true)
      by (unfold notBehind; apply Z.leb_le; exact Hle).
    assert (E2 : behind (priority x) a = false)
      by (unfold behind; apply Z.ltb_ge; exact Hle).
    rewrite E1, E2. rewrite insertSorted_in_front; [reflexivity|].
    apply Forall_app. split; [|constructor; [exact Hle|]];
      apply Forall_forall; intros y Hy; apply filter_In in Hy as (Hy & _);
      rewrite Forall_forall in Hall; apply (Hall y Hy).
  - assert (E1 : notBehind (priority x) a = false)
      by (unfold notBehind; apply Z.leb_gt; exact Hgt).
    assert (E2 : behind (priority x) a = true)
      by (unfold behind; apply Z.ltb_lt; exact Hgt).
    rewrite E1, E2.
    assert (Hnone : filter (notBehind (priority x)) l = []).
    { apply filter_keeps_none. eapply Forall_impl; [|exact Hall]. simpl.
      intros y Hy. unfold notBehind, rank in *. apply Z.leb_gt. lia. }
    assert (Hall' : filter (behind (priority x)) l = l).
    { apply filter_keeps_all. eapply Forall_impl; [|exact Hall]. simpl.
      intros y Hy. unfold behind, rank in *. apply Z.ltb_lt. lia. }
    rewrite Hnone, Hall'. simpl. unfold comparePriority. fold (rank a) (rank x).
    destruct (Z.leb_spec (rank a - rank x) 0); [lia|].
    rewrite insertSorted_in_front; [reflexivity | exact Hall].
Qed.

Lemma removeFirst_subset (mid : string) (l : list BufferItem) (y : BufferItem) :
  In y (snd (removeFirst mid l)) -> In y l.
Proof.
  induction l as [|x l IH]; simpl; [auto|].
  destruct (String.eqb (id (message x)) mid); simpl; [auto|].
  destruct (removeFirst mid l) as [found r]. simpl in *. intros [<- | H]; auto.
Qed.

Lemma removeFirst_sorted (mid : string) (l : list BufferItem) :
  byPriority l -> byPriority (snd (removeFirst mid l)).
Proof.
  unfold byPriority. induction 1 as [|x l Hs IH Hall]; simpl; [constructor|].
  destruct (String.eqb (id (message x)) mid); simpl; [exact Hs|].
  pose proof (removeFirst_subset mid l) as Hsub.
  destruct (removeFirst mid l) as [found r]. simpl in *.
  constructor; [exact IH|]. rewrite Forall_forall in *. auto.
Qed.

Lemma setScore_keeps (mid : string) (s : R) (l : list BufferItem) :
  map message (snd (setScore mid s l)) = map message l /\
  map priority (snd (setScore mid s l)) = map priority l.
Proof.
  induction l as [|x l (IH1 & IH2)]; simpl; [auto|].
  destruct (String.eqb (id (message x)) mid); simpl; [auto|].
  destruct (setScore mid s l) as [found r]. simpl in *. rewrite IH1, IH2. auto.
Qed.

Lemma setScore_sorted (mid : string) (s : R) (l : list BufferItem) :
  byPriority l -> byPriority (snd (setScore mid s l)).
Proof.
  rewrite !byPriority_ranks. unfold rank.
  rewrite <- !(map_map priority priority_value).
  destruct (setScore_keeps mid s l) as (_ & ->). auto.
Qed.

(** X1.  A buffer whose items are in ascending order of priority value
    keeps that order under [add], [remove], [updateScore] and [clear], so
    [peekByPriority] lists more urgent messages first. *)
Theorem buffer_stays_sorted (b : t) :
  byPriority (buffer b) ->
  (forall m p s, byPriority (buffer (snd (add b m p s)))) /\
  (forall m, byPriority (buffer (snd (remove b m)))) /\
  (forall mid s, byPriority (buffer (snd (updateScore b mid s)))) /\
  byPriority (buffer (clear b)).
Proof.
  intros Hs. repeat split.
  - intros m p s. unfold add.
    destruct (Z.of_nat (List.length (buffer b)) >=? maxSize b);
      [|apply sortItems_sorted].
    destruct (if findLowestPriorityIndex (buffer b) =? -1 then None else _);
      [|exact Hs].
    destruct (comparePriority p (priority b0) <? 0); [apply sortItems_sorted | exact Hs].
  - intros m. unfold remove.
    pose proof (removeFirst_sorted (id m) (buffer b) Hs).
    destruct (removeFirst (id m) (buffer b)). exact H.
  - intros mid s. unfold updateScore.
    pose proof (setScore_sorted mid s (buffer b) Hs).
    destruct (setScore mid s (buffer b)). exact H.
  - constructor.
Qed.

Lemma buffer_stays_sorted_witness :
  byPriority
    (buffer (snd (add Examples.fullBuffer (Examples.sampleMessage "u" URGENT) URGENT None))).
Proof.
  apply (buffer_stays_sorted Examples.fullBuffer).
  repeat constructor; simpl; lia.
Defined.

(** X2.  On a sorted buffer with room, [add] places the newcomer behind
    every buffered item of the same or a higher priority and in front of
    every item of lower priority; the items already buffered keep their
    order. *)
Theorem add_queues_behind_equal_priority (b : t) (m : QueueMessage) (p : Priority)
    (s : option R) :
  byPriority (buffer b) ->
  Z.of_nat (size b) < maxSize b ->
  add b m p s
  = (true,
     mkBuffer
       (filter (notBehind p) (buffer b) ++ mkItem m p s :: filter (behind p) (buffer b))
       (maxSize b)).
Proof.
  intros Hs Hroom. rewrite (add_not_full b m p s Hroom).
  rewrite (sortItems_push (mkItem m p s) (buffer b) Hs). reflexivity.
Qed.

(** A buffer of capacity five with two NORMAL entries. *)
Lemma add_queues_behind_equal_priority_witness :
  map (fun x => id (message x))
      (buffer (snd (add (mkBuffer (buffer Examples.fullBuffer) 5)
                      (Examples.sampleMessage "c" NORMAL) NORMAL None)))
  = ["a"; "b"; "c"]%string.
Proof.
  rewrite (add_queues_behind_equal_priority
             (mkBuffer (buffer Examples.fullBuffer) 5)
             (Examples.sampleMessage "c" NORMAL) NORMAL None).
  - reflexivity.
  - repeat constructor; simpl; lia.
  - simpl. lia.
Defined.

Lemma removeFirst_skips (mid : string) (front back : list BufferItem) (x : BufferItem) :
  absent mid front -> id (message x) = mid ->
  removeFirst mid (front ++ x :: back) = (true, front ++ back).
Proof.
  intros Habs Hx. induction front as [|y front IH]; simpl.
  - rewrite Hx, String.eqb_refl. reflexivity.
  - destruct (String.eqb_spec (id (message y)) mid) as [E | _].
    + exfalso. apply (Habs y); [left; reflexivity | exact E].
    + rewrite IH; [reflexivity|]. intros z Hz. apply Habs. right. exact Hz.
Qed.

(** X3.  On a sorted buffer with room that holds no item of the message's
    id, [add] followed by [remove] of the same message returns [true] and
    gives the buffer back as it was. *)
Theorem add_then_remove_restores (b : t) (m : QueueMessage) (p : Priority)
    (s : option R) :
  byPriority (buffer b) ->
  Z.of_nat (size b) < maxSize b ->
  absent (id m) (buffer b) ->
  remove (snd (add b m p s)) m = (true, b).
Proof.
  intros Hs Hroom Habs.
  rewrite (add_not_full b m p s Hroom).
  rewrite (sortItems_push (mkItem m p s) (buffer b) Hs). simpl.
  unfold remove. simpl.
  rewrite removeFirst_skips.
  - rewrite (sorted_split p (buffer b) Hs). destruct b; reflexivity.
  - intros x Hx. apply filter_In in Hx as (Hx & _). apply Habs, Hx.
  - reflexivity.
Qed.

Lemma add_then_remove_restores_witness :
  remove (snd (add (mkBuffer (buffer Examples.fullBuffer) 5)
                 (Examples.sampleMessage "c" URGENT) URGENT None))
         (Examples.sampleMessage "c" URGENT)
  = (true, mkBuffer (buffer Examples.fullBuffer) 5).
Proof.
  apply (add_then_remove_restores (mkBuffer (buffer Examples.fullBuffer) 5)
           (Examples.sampleMessage "c" URGENT) URGENT None).
  - repeat constructor; simpl; lia.
  - simpl. lia.
  - intros x [<- | [<- | []]]; simpl; discriminate.
Defined.



Lemma setScore_found (mid : string) (s : R) (l : list BufferItem) :
  fst (setScore mid s l) = true <-> exists x, In x l /\ id (message x) = mid.
Proof.
  induction l as [|x l IH]; simpl.
  - split; [discriminate | intros (x & [] & _)].
  - destruct (String.eqb_spec (id (message x)) mid) as [E | NE]; simpl.
    + split; eauto.
    + destruct (setScore mid s l) as [found r]. simpl in *. split.
      * intros H. apply IH in H as (y & Hy & Hid). eauto.
      * intros (y & [<- | Hy] & Hid); [contradiction|]. apply IH. eauto.
Qed.

(** X5.  [updateScore] answers [true] exactly when some buffered item
    carries the id; whatever it answers, the buffered messages, their order
    and their priorities are unchanged. *)
Theorem updateScore_touches_scores_only (b : t) (mid : string) (s : R) :
  (fst (updateScore b mid s) = true <->
   exists x, In x (buffer b) /\ id (message x) = mid) /\
  getAll (snd (updateScore b mid s)) = getAll b /\
  map priority (buffer (snd (updateScore b mid s))) = map priority (buffer b) /\
  maxSize (snd (updateScore b mid s)) = maxSize b.
Proof.
  unfold updateScore, getAll.
  pose proof (setScore_found mid s (buffer b)) as H1.
  destruct (setScore_keeps mid s (buffer b)) as (H2 & H3).
  destruct (setScore mid s (buffer b)) as [found r]. simpl in *. auto.
Qed.

(** X6.  [peekByPriority] without a limit, and with the limit 0, returns
    every buffered message; with a positive limit [n] it returns the first
    [n] of them, or all when fewer are buffered. *)
Theorem peekByPriority_limit (b : t) :
  peekByPriority b None = getAll b /\
  peekByPriority b (Some 0) = getAll b /\
  (forall n, 0 < n ->
     peekByPriority b (Some n) = firstn (Z.to_nat n) (getAll b) /\
     List.length (peekByPriority b (Some n)) = Nat.min (Z.to_nat n) (size b)).
Proof.
  assert (Hall : map message
                   (JS.slice0 (Z.of_nat (List.length (buffer b))) (buffer b))
                 = getAll b).
  { unfold JS.slice0, getAll.
    destruct (Z.ltb_spec (Z.of_nat (List.length (buffer b))) 0); [lia|].
    rewrite Nat2Z.id, firstn_all. reflexivity. }
  repeat split.
  - exact Hall.
  - exact Hall.
  - unfold peekByPriority, JS.or_default, JS.slice0, getAll.
    destruct (Z.eqb_spec n 0); [lia|]. destruct (Z.ltb_spec n 0); [lia|].
    symmetry. apply firstn_map.
  - unfold peekByPriority, JS.or_default, JS.slice0, size.
    destruct (Z.eqb_spec n 0); [lia|]. destruct (Z.ltb_spec n 0); [lia|].
    rewrite length_map, length_firstn. reflexivity.
Qed.

Lemma peekByPriority_limit_witness :
  peekByPriority Examples.fullBuffer (Some 1) = [Examples.sampleMessage "a" NORMAL].
Proof.
  destruct (peekByPriority_limit Examples.fullBuffer) as (_ & _ & H).
  destruct (H 1) as (-> & _); [lia | reflexivity].
Defined.

Lemma insertByScore_perm (x : BufferItem) (l : list BufferItem) :
  Permutation (insertByScore x l) (x :: l).
Proof.
  induction l as [|y l IH]; simpl.
  - apply Permutation_refl.
  - destruct (JS.Rleb (scoreOrZero y - scoreOrZero x) 0).
    + apply Permutation_refl.
    + eapply perm_trans; [apply perm_skip, IH | apply perm_swap].
Qed.

Lemma sortByScore_perm (l : list BufferItem) : Permutation (sortByScore l) l.
Proof.
  induction l as [|x l IH]; simpl.
  - apply perm_nil.
  - eapply perm_trans; [apply insertByScore_perm | apply perm_skip, IH].
Qed.

Lemma insertByScore_sorted (x : BufferItem) (l : list BufferItem) :
  byScoreDescending l -> byScoreDescending (insertByScore x l).
Proof.
  unfold byScoreDescending. induction l as [|y l IH]; intros Hs; simpl.
  - repeat constructor.
  - inversion Hs as [|? ? Hl Hall]; subst.
    unfold JS.Rleb. destruct (Rle_dec (scoreOrZero y - scoreOrZero x) 0) as [Hle | Hgt].
    + constructor; [exact Hs|]. constructor; [lra|].
      eapply Forall_impl; [|exact Hall]. simpl. intros; lra.
    + constructor; [apply IH, Hl|].
      eapply Permutation_Forall; [apply Permutation_sym, insertByScore_perm|].
      constructor; [lra | exact Hall].
Qed.

Lemma sortByScore_sorted (l : list BufferItem) : byScoreDescending (sortByScore l).
Proof.
  induction l as [|x l IH]; simpl.
  - constructor.
  - apply insertByScore_sorted, IH.
Qed.

Lemma in_firstn {A : Type} (n : nat) (l : list A) (x : A) :
  In x (firstn n l) -> In x l.
Proof.
  intros H. rewrite <- (firstn_skipn n l). apply in_or_app. left. exact H.
Qed.

Lemma firstn_sorted {A : Type} (R' : A -> A -> Prop) (n : nat) (l : list A) :
  StronglySorted R' l -> StronglySorted R' (firstn n l).
Proof.
  revert n. induction l as [|x l IH]; intros [|n] Hs; simpl; try constructor.
  - inversion Hs; subst. apply IH. assumption.
  - inversion Hs as [|? ? _ Hall]; subst.
    rewrite Forall_forall in *. intros y Hy. apply Hall.
    rewrite <- (firstn_skipn n l). apply in_or_app. left. exact Hy.
Qed.

(** X7.  [peekByScore] lists items of the buffer that have a score, in
    descending order of score; without a limit, or with the limit 0, it
    lists all of them. *)
Theorem peekByScore_descending (b : t) (limit : option Z) :
  exists items,
    peekByScore b limit = map message items /\
    (forall x, In x items -> In x (buffer b) /\ score x <> None) /\
    byScoreDescending items /\
    (JS.or_default limit 0 = 0 -> Permutation items (filter hasScore (buffer b))).
Proof.
  unfold peekByScore.
  set (sorted := sortByScore (filter hasScore (buffer b))).
  assert (Hfrom : forall x, In x sorted -> In x (buffer b) /\ score x <> None).
  { intros x Hx. apply (Permutation_in _ (sortByScore_perm _)) in Hx.
    apply filter_In in Hx as (Hx & Hsc). split; [exact Hx|].
    unfold hasScore in Hsc. destruct (score x); [discriminate | discriminate Hsc]. }
  exists (JS.slice0 (JS.or_default limit (Z.of_nat (List.length sorted))) sorted).
  split; [reflexivity|].
  assert (Hprefix : exists n,
            JS.slice0 (JS.or_default limit (Z.of_nat (List.length sorted))) sorted
            = firstn n sorted).
  { unfold JS.slice0.
    destruct (JS.or_default limit (Z.of_nat (List.length sorted)) <? 0); eauto. }
  destruct Hprefix as (n & Hn). split; [|split].
  - intros x Hx. rewrite Hn in Hx. apply Hfrom, (in_firstn n), Hx.
  - rewrite Hn. apply firstn_sorted, sortByScore_sorted.
  - intros H0.
    assert (JS.or_default limit (Z.of_nat (List.length sorted))
            = Z.of_nat (List.length sorted)) as ->.
    { unfold JS.or_default in *.
      destruct limit as [v|]; [destruct (Z.eqb_spec v 0); [reflexivity | lia] | reflexivity]. }
    unfold JS.slice0.
    destruct (Z.ltb_spec (Z.of_nat (List.length sorted)) 0); [lia|].
    rewrite Nat2Z.id, firstn_all. apply sortByScore_perm.
Qed.

Example peekByScore_example :
  let b0 := mkBuffer [] 5 in
  let b1 := snd (add b0 (Examples.sampleMessage "1" NORMAL) NORMAL (Some 0.5%R)) in
  let b2 := snd (add b1 (Examples.sampleMessage "2" NORMAL) NORMAL None) in
  map id (peekByPriority b2 None) = ["1"; "2"]%string /\
  map id (peekByScore b2 None) = ["1"]%string.
Proof. split; reflexivity. Qed.

End PriorityBufferOrder.


(** *** Further properties of the score calculator *)

Module ScoreCalculatorOrder.
Import JS ScoreCalculator ScoreCalculatorFacts Totals.

Local Open Scope R_scope.

(** X8.  With weights that are not negative, each of the six parts of the
    breakdown of a message with a positive token estimate, enqueued no later
    than the current time, lies between 0 and its weight; without custom
    scorers the total is then not negative. *)
Theorem breakdown_within_weights
    (c : ScoreCalculator.t) (message : QueueMessage) (context : ScoringContext) :
  0 <= w_priority (calc_weights c) -> 0 <= w_efficiency (calc_weights c) ->
  0 <= w_waitTime (calc_weights c) -> 0 <= w_retry (calc_weights c) ->
  0 <= w_tokenFit (calc_weights c) -> 0 <= w_processingTime (calc_weights c) ->
  0 < estimated (payload message) ->
  (enqueuedAt (attributes message) <= currentTime context)%Z ->
  let parts := breakdown (calculateScore c message context) in
  0 <= b_priority parts <= w_priority (calc_weights c) /\
  0 <= b_efficiency parts <= w_efficiency (calc_weights c) /\
  0 <= b_waitTime parts <= w_waitTime (calc_weights c) /\
  0 <= b_retry parts <= w_retry (calc_weights c) /\
  0 <= b_tokenFit parts <= w_tokenFit (calc_weights c) /\
  0 <= b_processingTime parts <= w_processingTime (calc_weights c) /\
  (calc_customScorers c = [] -> 0 <= total (calculateScore c message context)).
Proof.
  intros H1 H2 H3 H4 H5 H6 Hest Henq parts. subst parts.
  unfold calculateScore. cbn [total breakdown fold_left].
  cbn [b_priority b_efficiency b_waitTime b_retry b_tokenFit b_processingTime baseScores].
  pose proof (priorityScore_bounds (req_priority (payload message))) as B1.
  pose proof (efficiencyScore_bounds (estimated (payload message))
                (tpm_available (rateLimiterMetrics context))
                (tpm_limit (rateLimiterMetrics context)) Hest) as B2.
  assert (B3 := waitTimeScore_bounds
                  (IZR (currentTime context - enqueuedAt (attributes message)))
                  (req_priority (payload message))).
  assert (Hwait : 0 <= IZR (currentTime context - enqueuedAt (attributes message)))
    by (apply IZR_le; lia).
  specialize (B3 Hwait).
  pose proof (retryPenalty_bounds (receiveCount (attributes message))) as B4.
  pose proof (tokenFitScore_bounds (estimated (payload message))
                (tpm_available (rateLimiterMetrics context)) Hest) as B5.
  pose proof (processingTimeScore_bounds (estimated (payload message))
                (expectedProcessingTime (payload message))) as B6.
  repeat (split; [nra|]).
  intros Hnone. rewrite Hnone. cbn [fold_left]. nra.
Qed.

Lemma breakdown_within_weights_witness :
  0 <= b_efficiency
         (breakdown (calculateScore (create (mkScoringConfig None None))
                       (Examples.sampleMessage "a" NORMAL) Examples.sampleContext))
    <= 0.20.
Proof.
  destruct (breakdown_within_weights (create (mkScoringConfig None None))
              (Examples.sampleMessage "a" NORMAL) Examples.sampleContext)
    as (_ & H & _); simpl; try lra; try lia.
  exact H.
Defined.

Lemma fold_custom (scorers : list CustomScorer) (message : QueueMessage)
    (context : ScoringContext) (acc : R) :
  fold_left
    (fun acc scorer =>
       acc + scorer_calculate scorer message context * scorer_weight scorer)
    scorers acc
  = acc + customSum scorers message context.
Proof.
  revert acc. induction scorers as [|sc l IH]; intros acc; simpl.
  - lra.
  - rewrite IH. lra.
Qed.

(** X9.  Custom scorers are additive: each adds its value times its weight
    to the total and none changes the breakdown of the six built-in parts. *)
Theorem custom_scorers_add (w : ScoringWeights) (scorers : list CustomScorer)
    (message : QueueMessage) (context : ScoringContext) :
  total (calculateScore (mkCalculator w scorers) message context)
  = total (calculateScore (mkCalculator w []) message context)
    + customSum scorers message context /\
  breakdown (calculateScore (mkCalculator w scorers) message context)
  = breakdown (calculateScore (mkCalculator w []) message context).
Proof.
  split; [|reflexivity].
  unfold calculateScore. cbn [total calc_customScorers calc_weights].
  rewrite fold_custom. cbn [fold_left]. lra.
Qed.

(** X10.  The priority score is strictly larger for the more urgent of two
    priorities. *)
Theorem priority_score_strictly_ordered (p q : Priority) :
  (priority_value p < priority_value q)%Z ->
  calculatePriorityScore q < calculatePriorityScore p.
Proof. destruct p, q; simpl; intros H; try lia; lra. Qed.

Lemma priority_score_strictly_ordered_witness :
  calculatePriorityScore LOW < calculatePriorityScore URGENT.
Proof. apply (priority_score_strictly_ordered URGENT LOW). simpl. lia. Defined.

(** X11.  A request that cannot fit, because no tokens per minute are
    available or because its estimate exceeds what is available, gets 0
    both as efficiency score and as token-fit score. *)
Theorem unfit_request_scores_zero (est avail limit : R) :
  avail <= 0 \/ avail < est ->
  calculateEfficiencyScore est avail limit = 0 /\
  calculateTokenFitScore est avail = 0.
Proof.
  intros H. unfold calculateEfficiencyScore, calculateTokenFitScore.
  unfold Rgeb, Rgtb, Rleb, Rltb.
  destruct (Rle_dec avail 0) as [Hle | Hpos]; cbv beta iota zeta; [auto|].
  destruct H as [H | H]; [contradiction|].
  assert (Hu : 1 < est / avail).
  { apply (Rmult_lt_reg_r avail); [lra|].
    unfold Rdiv. rewrite Rmult_assoc, Rinv_l; lra. }
  generalize dependent (est / avail). intros u Hu.
  split; split_comparisons; lra.
Qed.

Lemma unfit_request_scores_zero_witness :
  calculateEfficiencyScore 1200 1000 2000 = 0 /\ calculateTokenFitScore 1200 1000 = 0.
Proof. apply (unfit_request_scores_zero 1200 1000 2000). right. lra. Defined.

(** X12.  For a fixed priority and waits that are not negative, the
    wait-time score does not decrease as the wait grows, and it is 1 once
    the wait has reached the priority's maximum wait (10 s, 30 s, 60 s,
    300 s). *)
Theorem wait_time_score_grows_and_saturates (p : Priority) :
  (forall w1 w2, 0 <= w1 -> w1 <= w2 ->
     calculateWaitTimeScore w1 p <= calculateWaitTimeScore w2 p) /\
  (forall w, maxWaitTimes p <= w -> calculateWaitTimeScore w p = 1).
Proof.
  pose proof (maxWaitTimes_pos p) as Hmax. split.
  - intros w1 w2 _ Hle. unfold calculateWaitTimeScore. cbv zeta.
    assert (Hq : w1 / maxWaitTimes p <= w2 / maxWaitTimes p).
    { apply Rmult_le_compat_r; [|exact Hle]. left. apply Rinv_0_lt_compat, Hmax. }
    assert (Hm : Rmin (w1 / maxWaitTimes p) 1.0 <= Rmin (w2 / maxWaitTimes p) 1.0)
      by (apply Rle_min_compat_r, Hq).
    destruct p; try exact Hm. apply sqrt_le_1_alt, Hm.
  - intros w Hw. unfold calculateWaitTimeScore. cbv zeta.
    assert (Hq : 1 <= w / maxWaitTimes p).
    { apply (Rmult_le_reg_r (maxWaitTimes p)); [exact Hmax|].
      unfold Rdiv. rewrite Rmult_assoc, Rinv_l; lra. }
    assert (Hm : Rmin (w / maxWaitTimes p) 1.0 = 1).
    { rewrite Rmin_right; lra. }
    rewrite Hm. destruct p; try reflexivity. apply sqrt_1.
Qed.

Lemma wait_time_score_grows_and_saturates_witness :
  calculateWaitTimeScore 5000 URGENT <= calculateWaitTimeScore 20000 URGENT /\
  calculateWaitTimeScore 20000 URGENT = 1.
Proof.
  destruct (wait_time_score_grows_and_saturates URGENT) as (Hmono & Hsat).
  split; [apply Hmono; lra | apply Hsat; simpl; lra].
Defined.

Lemma normalizeProcessingTime_antitone (t1 t2 : R) :
  t1 <= t2 -> normalizeProcessingTime t2 <= normalizeProcessingTime t1.
Proof. intros H. unfold normalizeProcessingTime. split_comparisons; lra. Qed.

(** X13.  Among expected processing times up to 30000 ms a longer one
    never scores higher than a shorter one, and every time above 30000 ms
    scores the constant 0.1; an expected processing time of 0 counts as not
    supplied, so the score is then derived from ten milliseconds per
    estimated token. *)
Theorem processing_time_score_antitone (est : R) :
  (forall t1 t2, t1 <> 0 -> t2 <> 0 -> t1 <= t2 -> t2 <= 30000 ->
     calculateProcessingTimeScore est (Some t2)
     <= calculateProcessingTimeScore est (Some t1)) /\
  (forall t, 30000 < t -> calculateProcessingTimeScore est (Some t) = 0.1) /\
  calculateProcessingTimeScore est (Some 0) = normalizeProcessingTime (est * 10) /\
  calculateProcessingTimeScore est None = normalizeProcessingTime (est * 10).
Proof.
  repeat split.
  - intros t1 t2 H1 H2 Hle _. unfold calculateProcessingTimeScore.
    destruct (Req_dec_T t2 0); [contradiction|].
    destruct (Req_dec_T t1 0); [contradiction|].
    apply normalizeProcessingTime_antitone, Hle.
  - intros t Ht. unfold calculateProcessingTimeScore.
    destruct (Req_dec_T t 0); [lra|].
    unfold normalizeProcessingTime. split_comparisons; lra.
  - unfold calculateProcessingTimeScore.
    destruct (Req_dec_T 0 0) as [_ | Hne]; [reflexivity | contradiction Hne; reflexivity].
Qed.

Lemma processing_time_score_antitone_witness :
  calculateProcessingTimeScore 100 (Some 6000)
  <= calculateProcessingTimeScore 100 (Some 2000).
Proof.
  destruct (processing_time_score_antitone 100) as (H & _).
  apply H; lra.
Defined.

End ScoreCalculatorOrder.


(** *** Further properties of the in-memory storage *)

Module InMemoryStorageDelivery.
Import InMemoryStorage StorageStatements InMemoryStorageFacts.

(** **** The map *)

Lemma get_set_same {V : Type} (k : string) (v : V) (m : JSMap.t V) :
  JSMap.get k (JSMap.set k v m) = Some v.
Proof.
  induction m as [|[k' v'] m IH]; simpl.
  - rewrite String.eqb_refl. reflexivity.
  - destruct (String.eqb k' k) eqn:E; simpl; rewrite E; [reflexivity | exact IH].
Qed.

Lemma set_fresh {V : Type} (k : string) (v : V) (m : JSMap.t V) :
  JSMap.get k m = None -> JSMap.set k v m = m ++ [(k, v)].
Proof.
  induction m as [|[k' v'] m IH]; simpl; [reflexivity|].
  destruct (String.eqb k' k); [discriminate|].
  intros H. rewrite (IH H). reflexivity.
Qed.

Lemma get_delete_absent {V : Type} (k k' : string) (m : JSMap.t V) :
  JSMap.get k m = None -> JSMap.get k (JSMap.delete k' m) = None.
Proof.
  induction m as [|[k0 v0] m IH]; simpl; [reflexivity|].
  destruct (String.eqb k0 k) eqn:E; [discriminate|]. intros H.
  destruct (negb (String.eqb k0 k')); simpl; [rewrite E|]; apply IH, H.
Qed.

(** **** [dequeue] *)

Lemma collect_length entries limit vts now results msgs infl :
  Z.of_nat (List.length (fst (fst (collect entries limit vts now results msgs infl))))
  <= Z.max limit (Z.of_nat (List.length results)).
Proof.
  revert results msgs infl.
  induction entries as [|[key inMemMsg] rest IH]; intros results msgs infl; simpl; [lia|].
  destruct (Z.geb_spec (Z.of_nat (List.length results)) limit) as [Hge | Hlt]; [simpl; lia|].
  destruct (isHidden now inMemMsg); [apply IH|].
  destruct (isDue now inMemMsg); [apply IH|].
  eapply Z.le_trans; [apply IH|]. rewrite length_app. simpl. lia.
Qed.

(** X14.  [dequeue] returns at most [limit] messages, and none when the
    limit is 0 or negative. *)
Theorem dequeue_returns_at_most_limit (limit vts now : Z) (st : t) :
  exists results st',
    dequeue limit vts now st = (Ok results, st') /\
    Z.of_nat (List.length results) <= Z.max limit 0 /\
    (limit <= 0 -> results = []).
Proof.
  unfold dequeue.
  destruct (fold_left (reapStep now) (inFlight st) (messages st, inFlight st))
    as [msgs1 infl1].
  pose proof (collect_length msgs1 limit vts now [] msgs1 infl1) as H.
  destruct (collect msgs1 limit vts now [] msgs1 infl1) as [[results msgs2] infl2].
  simpl in H. eexists _, _. split; [reflexivity|]. split; [exact H|].
  intros Hle. destruct results; [reflexivity | simpl in H; lia].
Qed.

Lemma dequeue_returns_at_most_limit_witness :
  fst (dequeue 0 30 1000 Examples.storedOnce) = Ok [].
Proof.
  destruct (dequeue_returns_at_most_limit 0 30 1000 Examples.storedOnce)
    as (results & st' & Heq & _ & Hnone).
  rewrite Heq. simpl. rewrite Hnone; [reflexivity | lia].
Defined.

Lemma sameDelivery_refl now e : sameDelivery now e e.
Proof. unfold sameDelivery. auto. Qed.

Lemma sameDelivery_trans now e1 e2 e3 :
  sameDelivery now e1 e2 -> sameDelivery now e2 e3 -> sameDelivery now e1 e3.
Proof.
  unfold sameDelivery. intros (A1 & A2 & A3 & A4) (B1 & B2 & B3 & B4).
  repeat split; congruence.
Qed.

Lemma Forall2_sameDelivery_refl now m : Forall2 (sameDelivery now) m m.
Proof. induction m; constructor; auto using sameDelivery_refl. Qed.

Lemma Forall2_sameDelivery_trans now m1 m2 m3 :
  Forall2 (sameDelivery now) m1 m2 -> Forall2 (sameDelivery now) m2 m3 ->
  Forall2 (sameDelivery now) m1 m3.
Proof.
  intros H. revert m3. induction H as [|e1 e2 l1 l2 He _ IH]; intros m3 H3;
    inversion H3; subst; constructor; eauto using sameDelivery_trans.
Qed.

Lemma set_sameDelivery now k r r' (m : JSMap.t InMemoryMessage) :
  JSMap.get k m = Some r ->
  message r = message r' -> deleteAt r = deleteAt r' ->
  isHidden now r = isHidden now r' ->
  Forall2 (sameDelivery now) m (JSMap.set k r' m).
Proof.
  intros Hget Hm Hd Hh. induction m as [|[k0 r0] m IH]; simpl in *; [discriminate|].
  destruct (String.eqb k0 k) eqn:E.
  - injection Hget as ->. constructor; [|apply Forall2_sameDelivery_refl].
    unfold sameDelivery. simpl. auto.
  - constructor; [apply sameDelivery_refl | apply IH, Hget].
Qed.

Lemma reapStep_sameDelivery now msgs infl entry :
  Forall2 (sameDelivery now) msgs (fst (reapStep now (msgs, infl) entry)).
Proof.
  unfold reapStep. destruct entry as [h mid].
  destruct (JSMap.get mid msgs) as [r|] eqn:Hget; [|apply Forall2_sameDelivery_refl].
  destruct (visibilityTimeout r) as [vt|] eqn:Hvt; [|apply Forall2_sameDelivery_refl].
  destruct (negb (vt =? 0) && (vt <? now)) eqn:Hc; [|apply Forall2_sameDelivery_refl].
  simpl. apply (set_sameDelivery now mid r); auto.
  unfold isHidden. rewrite Hvt. simpl.
  apply andb_true_iff in Hc as (_ & Hlt). apply Z.ltb_lt in Hlt.
  destruct (Z.gtb_spec vt now); [lia|]. apply andb_false_r.
Qed.

Lemma reap_sameDelivery now entries msgs infl :
  Forall2 (sameDelivery now) msgs
    (fst (fold_left (reapStep now) entries (msgs, infl))).
Proof.
  revert msgs infl. induction entries as [|e l IH]; intros msgs infl.
  - apply Forall2_sameDelivery_refl.
  - change (fold_left (reapStep now) (e :: l) (msgs, infl))
      with (fold_left (reapStep now) l (reapStep now (msgs, infl) e)).
    pose proof (reapStep_sameDelivery now msgs infl e) as H1.
    destruct (reapStep now (msgs, infl) e) as [msgs' infl']. simpl in H1.
    eapply Forall2_sameDelivery_trans; [exact H1 | apply IH].
Qed.

Lemma Forall2_sameDelivery_origin now m1 m2 e2 :
  Forall2 (sameDelivery now) m1 m2 -> In e2 m2 ->
  exists e1, In e1 m1 /\ sameDelivery now e1 e2.
Proof.
  induction 1 as [|a b l1 l2 Hab _ IH]; intros Hin; [contradiction|].
  destruct Hin as [<- | Hin].
  - exists a. split; [left; reflexivity | exact Hab].
  - destruct (IH Hin) as (e1 & H1 & H2). exists e1. split; [right|]; assumption.
Qed.

Lemma collect_origin entries limit vts now results msgs infl m :
  In m (fst (fst (collect entries limit vts now results msgs infl))) ->
  In m results \/
  exists key inMemMsg,
    In (key, inMemMsg) entries /\ isHidden now inMemMsg = false /\
    m = message (deliver key inMemMsg vts now).
Proof.
  revert results msgs infl.
  induction entries as [|[key inMemMsg] rest IH]; intros results msgs infl; simpl; [auto|].
  destruct (Z.of_nat (List.length results) >=? limit); [simpl; auto|].
  destruct (isHidden now inMemMsg) eqn:Hh.
  - intros H. destruct (IH _ _ _ H) as [H1 | (k & r & H1 & H2 & H3)]; [auto|].
    right. exists k, r. auto.
  - destruct (isDue now inMemMsg).
    + intros H. destruct (IH _ _ _ H) as [H1 | (k & r & H1 & H2 & H3)]; [auto|].
      right. exists k, r. auto.
    + intros H. destruct (IH _ _ _ H) as [H1 | (k & r & H1 & H2 & H3)].
      * apply in_app_or in H1 as [H1 | [<- | []]]; [auto|].
        right. exists key, inMemMsg. auto.
      * right. exists k, r. auto.
Qed.

(** X15.  Every message that [dequeue] returns is a stored message that was
    not hidden at the time of the call; it is returned with its id, payload
    and enqueue time unchanged, its [receiveCount] raised by one and the
    receipt handle [receipt-<key>-<now>]. *)
Theorem dequeue_delivers_only_visible_messages
    (limit vts now : Z) (st st' : t) (results : list QueueMessage)
    (m : QueueMessage) :
  dequeue limit vts now st = (Ok results, st') ->
  In m results ->
  exists key stored,
    In (key, stored) (messages st) /\
    isHidden now stored = false /\
    id m = id (message stored) /\
    payload m = payload (message stored) /\
    enqueuedAt (attributes m) = enqueuedAt (attributes (message stored)) /\
    receiveCount (attributes m) = S (receiveCount (attributes (message stored))) /\
    receiptHandle (attributes m) = ("receipt-" ++ key ++ "-" ++ JS.show now)%string.
Proof.
  intros Heq Hin. unfold dequeue in Heq.
  destruct (fold_left (reapStep now) (inFlight st) (messages st, inFlight st))
    as [msgs1 infl1] eqn:Ereap.
  assert (Hreap : Forall2 (sameDelivery now) (messages st) msgs1).
  { change msgs1 with (fst (msgs1, infl1)). rewrite <- Ereap.
    apply reap_sameDelivery. }
  pose proof (collect_origin msgs1 limit vts now [] msgs1 infl1 m) as Horigin.
  destruct (collect msgs1 limit vts now [] msgs1 infl1)
    as [[results' msgs2] infl2] eqn:Ecollect.
  injection Heq as -> _. cbn [fst] in Horigin.
  destruct (Horigin Hin) as [[] | (key & r & Hr & Hvis & Hm0)]. subst m.
  destruct (Forall2_sameDelivery_origin now _ _ _ Hreap Hr)
    as ([key0 stored] & Hstored & (Hk & Hm & _ & Hh)).
  simpl in Hk, Hm, Hh. subst key0.
  exists key, stored. split; [exact Hstored|]. split; [congruence|].
  unfold deliver. simpl. rewrite <- Hm. auto.
Qed.

Lemma dequeue_delivers_only_visible_messages_witness :
  exists key stored,
    In (key, stored) (messages Examples.storedOnce) /\
    isHidden 1000 stored = false /\
    receiptHandle
      (attributes
         (mkMessage "msg-1" (Examples.request "r1" NORMAL 100%R)
            (mkAttributes "msg-1" "receipt-msg-1-1000" 1000 1%nat (Some 1000))))
    = ("receipt-" ++ key ++ "-" ++ JS.show 1000)%string.
Proof.
  destruct (dequeue_delivers_only_visible_messages 1 30 1000 Examples.storedOnce
              (snd (dequeue 1 30 1000 Examples.storedOnce))
              [mkMessage "msg-1" (Examples.request "r1" NORMAL 100%R)
                 (mkAttributes "msg-1" "receipt-msg-1-1000" 1000 1%nat (Some 1000))]
              (mkMessage "msg-1" (Examples.request "r1" NORMAL 100%R)
                 (mkAttributes "msg-1" "receipt-msg-1-1000" 1000 1%nat (Some 1000))))
    as (key & stored & H1 & H2 & _ & _ & _ & _ & H3).
  - vm_compute. reflexivity.
  - left. reflexivity.
  - exists key, stored. auto.
Defined.

(** **** [enqueue] *)

Lemma count_app (now : Z) (l1 l2 : list (string * InMemoryMessage)) :
  List.length (filter (fun e => isCountedVisible now (snd e)) (l1 ++ l2))
  = (List.length (filter (fun e => isCountedVisible now (snd e)) l1)
     + List.length (filter (fun e => isCountedVisible now (snd e)) l2))%nat.
Proof. rewrite filter_app, length_app. reflexivity. Qed.

(** X16.  When the next id is not yet a key of the message map, [enqueue]
    stores the request as a new last message with that id, [receiveCount] 0
    and no deadline: the message is visible at once, the visible count grows
    by one, and the in-flight index is untouched. *)
Theorem enqueue_appends_visible_message (request : LLMRequest) (now : Z) (st : t) :
  JSMap.get (nextId st) (messages st) = None ->
  exists queued st',
    enqueue request now st = (Ok queued, st') /\
    id queued = nextId st /\
    payload queued = request /\
    receiveCount (attributes queued) = 0%nat /\
    enqueuedAt (attributes queued) = now /\
    getAllMessages st' = getAllMessages st ++ [queued] /\
    JSMap.get (id queued) (messages st') = Some (mkRecord queued None None) /\
    inFlight st' = inFlight st /\
    messageCounter st' = messageCounter st + 1 /\
    forall later,
      fst (getApproximateMessageCount later st')
      = match fst (getApproximateMessageCount later st) with
        | Ok n => Ok (n + 1)
        | Throw e => Throw e
        end.
Proof.
  intros Hfresh. unfold enqueue. fold (nextId st). eexists _, _.
  split; [reflexivity|]. cbn [id payload attributes receiveCount enqueuedAt
                              messages inFlight messageCounter].
  repeat split.
  - unfold getAllMessages. cbn [messages].
    rewrite (set_fresh _ _ _ Hfresh), map_app. reflexivity.
  - apply get_set_same.
  - intros later. unfold getApproximateMessageCount. cbn [fst messages].
    rewrite (set_fresh _ _ _ Hfresh), count_app. simpl. f_equal. lia.
Qed.

Lemma enqueue_appends_visible_message_witness :
  exists queued st',
    enqueue (Examples.request "r2" HIGH 50%R) 1500 Examples.storedOnce
    = (Ok queued, st') /\
    id queued = "msg-2"%string /\
    getAllMessages st' = getAllMessages Examples.storedOnce ++ [queued].
Proof.
  destruct (enqueue_appends_visible_message
              (Examples.request "r2" HIGH 50%R) 1500 Examples.storedOnce)
    as (queued & st' & H1 & H2 & _ & _ & _ & H3 & _).
  - vm_compute. reflexivity.
  - exists queued, st'. repeat split; auto.
Defined.

(** **** [updateVisibilityTimeout] *)

Lemma set_same_message (k : string) (r r' : InMemoryMessage)
    (m : JSMap.t InMemoryMessage) :
  JSMap.get k m = Some r -> message r' = message r ->
  map (fun e => message (snd e)) (JSMap.set k r' m)
  = map (fun e => message (snd e)) m.
Proof.
  intros Hget Hm. induction m as [|[k0 r0] m IH]; simpl in *; [discriminate|].
  destruct (String.eqb k0 k).
  - injection Hget as ->. simpl. rewrite Hm. reflexivity.
  - simpl. rewrite (IH Hget). reflexivity.
Qed.

(** X17.  [updateVisibilityTimeout] fails with not-found, and changes
    nothing, for a handle that is not in the in-flight index.  For a handle
    of the index it succeeds: the stored messages (handles, counts,
    payloads) and the index stay as they are, and the record that the
    handle stands for, if still stored, gets the deadline
    [now + seconds * 1000]. *)
Theorem updateVisibilityTimeout_moves_deadline_only
    (h : string) (seconds now : Z) (st : t) :
  (JSMap.get h (inFlight st) = None ->
   updateVisibilityTimeout h seconds now st = (Throw (notFound h), st)) /\
  (forall mid, JSMap.get h (inFlight st) = Some mid ->
   exists st',
     updateVisibilityTimeout h seconds now st = (Ok tt, st') /\
     getAllMessages st' = getAllMessages st /\
     inFlight st' = inFlight st /\
     messageCounter st' = messageCounter st /\
     forall stored, JSMap.get mid (messages st) = Some stored ->
       JSMap.get mid (messages st')
       = Some (mkRecord (message stored) (Some (now + seconds * 1000))
                 (deleteAt stored))).
Proof.
  split.
  - intros Hnone. unfold updateVisibilityTimeout. rewrite Hnone. reflexivity.
  - intros mid Hsome. unfold updateVisibilityTimeout. rewrite Hsome.
    destruct (JSMap.get mid (messages st)) as [stored|] eqn:Hget.
    + eexists. split; [reflexivity|]. cbn [messages inFlight messageCounter].
      repeat split.
      * unfold getAllMessages. cbn [messages].
        apply (set_same_message mid stored); [exact Hget | reflexivity].
      * intros stored' Heq. injection Heq as <-. apply get_set_same.
    + exists st. repeat split. intros stored Heq. discriminate Heq.
Qed.

Lemma updateVisibilityTimeout_moves_deadline_only_witness :
  updateVisibilityTimeout "unknown" 30 2000 Examples.deliveredOnce
  = (Throw (notFound "unknown"), Examples.deliveredOnce).
Proof.
  destruct (updateVisibilityTimeout_moves_deadline_only
              "unknown" 30 2000 Examples.deliveredOnce) as (H & _).
  apply H. vm_compute. reflexivity.
Defined.

(** **** Counters *)

Lemma filter_complement_length {A : Type} (f : A -> bool) (l : list A) :
  (List.length (filter f l) + List.length (filter (fun x => negb (f x)) l))%nat
  = List.length l.
Proof.
  induction l as [|x l IH]; simpl; [reflexivity|].
  destruct (f x); simpl; lia.
Qed.

Lemma filter_length_le {A : Type} (f g : A -> bool) (l : list A) :
  (forall x, f x = true -> g x = true) ->
  (List.length (filter f l) <= List.length (filter g l))%nat.
Proof.
  intros Himp. induction l as [|x l IH]; simpl; [lia|].
  destruct (f x) eqn:Ef.
  - rewrite (Himp x Ef). simpl. lia.
  - destruct (g x); simpl; lia.
Qed.

Lemma countedVisible_not_hidden (now : Z) (r : InMemoryMessage) :
  isCountedVisible now r = true -> negb (isHidden now r) = true.
Proof.
  unfold isCountedVisible, isHidden. destruct (visibilityTimeout r) as [vt|]; [|auto].
  destruct (Z.eqb_spec vt 0); simpl; [auto|].
  destruct (Z.ltb_spec vt now); [|discriminate].
  destruct (Z.gtb_spec vt now); [lia | auto].
Qed.

(** X18.  In [getQueueAttributes] the number of available messages and the
    number of in-flight messages add up to the number of stored messages and
    neither is negative; [getApproximateMessageCount] at the same time never
    reports more than the available number. *)
Theorem queue_counters_agree (now : Z) (st : t) :
  exists attrs visible,
    getQueueAttributes now st = (Ok attrs, st) /\
    getApproximateMessageCount now st = (Ok visible, st) /\
    approximateNumberOfMessages attrs + approximateNumberOfMessagesInFlight attrs
    = Z.of_nat (List.length (messages st)) /\
    0 <= approximateNumberOfMessages attrs /\
    0 <= approximateNumberOfMessagesInFlight attrs /\
    0 <= visible <= approximateNumberOfMessages attrs.
Proof.
  eexists _, _. split; [reflexivity|]. split; [reflexivity|].
  cbn [approximateNumberOfMessages approximateNumberOfMessagesInFlight].
  pose proof (filter_complement_length (fun e => isHidden now (snd e)) (messages st)) as H1.
  pose proof (filter_length_le
                (fun e => isCountedVisible now (snd e))
                (fun e => negb (isHidden now (snd e)))
                (messages st)
                (fun e => countedVisible_not_hidden now (snd e))) as H2.
  repeat split; lia.
Qed.

(** At the millisecond of its deadline a message is counted neither as
    visible nor as in flight, while [getQueueAttributes] lists it as
    available. *)
Example counters_differ_at_the_deadline :
  fst (getQueueAttributes 31000 Examples.deliveredOnce)
  = Ok (mkAttrs 1 0 0 1000 30 262144 345600) /\
  fst (getApproximateMessageCount 31000 Examples.deliveredOnce) = Ok 0.
Proof. split; vm_compute; reflexivity. Qed.

(** **** Batches *)

Lemma enqueue_succeeds (request : LLMRequest) (now : Z) (st : t) :
  exists queued st',
    enqueue request now st = (Ok queued, st') /\
    payload queued = request /\
    receiveCount (attributes queued) = 0%nat /\
    messageCounter st' = messageCounter st + 1 /\
    inFlight st' = inFlight st.
Proof. unfold enqueue. eexists _, _. repeat split. Qed.

Lemma batchEnqueueLoop_spec (requests : list LLMRequest) (now : Z)
    (results : list QueueMessage) (st : t) :
  exists queued st',
    batchEnqueueLoop requests now results st = (Ok (results ++ queued), st') /\
    map payload queued = requests /\
    messageCounter st' = messageCounter st + Z.of_nat (List.length requests) /\
    inFlight st' = inFlight st /\
    Forall (fun m => receiveCount (attributes m) = 0%nat) queued.
Proof.
  revert results st. induction requests as [|r rest IH]; intros results st.
  - exists [], st. simpl. rewrite app_nil_r. repeat split; auto. lia.
  - destruct (enqueue_succeeds r now st) as (first & st1 & E & Hp & Hz & Hc & Hi).
    destruct (IH (results ++ [first]) st1) as (queued & st' & Heq & Hpay & Hcount & Hinfl & Hzero).
    exists (first :: queued), st'. split.
    + simpl batchEnqueueLoop. unfold bind. rewrite E, Heq, <- app_assoc. reflexivity.
    + simpl. rewrite Hp, Hpay. repeat split; auto; [lia | congruence].
Qed.

(** X19.  [batchEnqueue] never fails; it returns one message per request,
    in the order of the requests and with their payloads, each with
    [receiveCount] 0, and advances the id counter by the number of
    requests. *)
Theorem batchEnqueue_one_message_per_request
    (requests : list LLMRequest) (now : Z) (st : t) :
  exists queued st',
    batchEnqueue requests now st = (Ok queued, st') /\
    map payload queued = requests /\
    List.length queued = List.length requests /\
    messageCounter st' = messageCounter st + Z.of_nat (List.length requests) /\
    inFlight st' = inFlight st /\
    Forall (fun m => receiveCount (attributes m) = 0%nat) queued.
Proof.
  destruct (batchEnqueueLoop_spec requests now [] st)
    as (queued & st' & Heq & Hpay & Hcount & Hinfl & Hzero).
  exists queued, st'. unfold batchEnqueue. repeat split; auto.
  rewrite <- Hpay, length_map. reflexivity.
Qed.

Lemma batchDelete_cons (h : string) (rest : list string) (now : Z) (st : t) :
  batchDelete (h :: rest) now st
  = match JSMap.get h (inFlight st) with
    | None => (Throw (notFound h), st)
    | Some mid =>
        batchDelete rest now
          (mkStorage (JSMap.delete mid (messages st)) (JSMap.delete h (inFlight st))
             (messageCounter st) (createdAt st) now)
    end.
Proof.
  unfold batchDelete. simpl forEach. unfold bind, deleteMessage.
  destruct (JSMap.get h (inFlight st)); reflexivity.
Qed.

Lemma batchDelete_keeps_absent (h : string) (handles : list string) (now : Z) (st : t) :
  JSMap.get h (inFlight st) = None ->
  JSMap.get h (inFlight (snd (batchDelete handles now st))) = None.
Proof.
  revert st. induction handles as [|h0 rest IH]; intros st Hnone; [exact Hnone|].
  rewrite batchDelete_cons.
  destruct (JSMap.get h0 (inFlight st)) as [mid|]; [|exact Hnone].
  apply IH. simpl. apply get_delete_absent, Hnone.
Qed.

(** X20.  After a [batchDelete] that succeeds, none of its handles is in
    the in-flight index any more; a [batchDelete] that meets a handle
    outside the index fails with not-found for that handle, and the
    deletions made before it are kept. *)
Theorem batchDelete_revokes_or_stops (handles : list string) (now : Z) (st : t) :
  (fst (batchDelete handles now st) = Ok tt ->
   forall h, In h handles ->
     JSMap.get h (inFlight (snd (batchDelete handles now st))) = None) /\
  (forall done h rest,
     handles = done ++ h :: rest ->
     fst (batchDelete done now st) = Ok tt ->
     JSMap.get h (inFlight (snd (batchDelete done now st))) = None ->
     batchDelete handles now st
     = (Throw (notFound h), snd (batchDelete done now st))).
Proof.
  split.
  - revert st. induction handles as [|h0 rest IH]; intros st Hok h Hin; [contradiction|].
    rewrite batchDelete_cons in *.
    destruct (JSMap.get h0 (inFlight st)) as [mid|] eqn:Hget; [|discriminate Hok].
    destruct Hin as [<- | Hin].
    + apply (batchDelete_keeps_absent h0 rest now). simpl. apply get_delete_same.
    + apply IH; assumption.
  - intros done h rest -> Hok Hnone. revert st Hok Hnone.
    induction done as [|h0 done IH]; intros st Hok Hnone.
    + simpl app. rewrite batchDelete_cons. simpl in Hnone. rewrite Hnone. reflexivity.
    + simpl app. rewrite (batchDelete_cons h0 (done ++ h :: rest)).
      rewrite (batchDelete_cons h0 done) in Hok, Hnone |- *.
      destruct (JSMap.get h0 (inFlight st)) as [mid|] eqn:Hget; [|discriminate Hok].
      apply IH; assumption.
Qed.

Lemma batchDelete_revokes_or_stops_witness :
  batchDelete ["receipt-msg-1-1000"; "receipt-msg-1-1000"]%string 2000
    Examples.deliveredOnce
  = (Throw (notFound "receipt-msg-1-1000"),
     snd (batchDelete ["receipt-msg-1-1000"%string] 2000 Examples.deliveredOnce)).
Proof.
  destruct (batchDelete_revokes_or_stops
              ["receipt-msg-1-1000"; "receipt-msg-1-1000"]%string 2000
              Examples.deliveredOnce) as (_ & H).
  apply (H ["receipt-msg-1-1000"%string] "receipt-msg-1-1000"%string []).
  - reflexivity.
  - vm_compute. reflexivity.
  - vm_compute. reflexivity.
Defined.

(** **** [peekMessagesByPriority] *)

Lemma peekLoop_spec entries wanted limit now results :
  Z.of_nat (List.length (peekLoop entries wanted limit now results))
  <= Z.max limit (Z.of_nat (List.length results)) /\
  forall m, In m (peekLoop entries wanted limit now results) ->
    In m results \/
    exists key stored,
      In (key, stored) entries /\ m = message stored /\
      isHidden now stored = false /\
      priority_value (req_priority (payload m)) = wanted.
Proof.
  revert results. induction entries as [|[key stored] rest IH]; intros results; simpl.
  - split; [lia | auto].
  - destruct (Z.geb_spec (Z.of_nat (List.length results)) limit); [split; [lia | auto]|].
    destruct (isHidden now stored) eqn:Hh.
    + destruct (IH results) as (H1 & H2). split; [exact H1|].
      intros m Hm. destruct (H2 m Hm) as [? | (k & s & ? & ? & ? & ?)]; [auto|].
      right. exists k, s. auto.
    + destruct (Z.eqb_spec (priority_value (req_priority (payload (message stored))))
                  wanted) as [Heq | Hne].
      * destruct (IH (results ++ [message stored])) as (H1 & H2). split.
        -- rewrite length_app in H1. simpl in H1. lia.
        -- intros m Hm. destruct (H2 m Hm) as [Hr | (k & s & ? & ? & ? & ?)].
           ++ apply in_app_or in Hr as [Hr | [<- | []]]; [auto|].
              right. exists key, stored. auto.
           ++ right. exists k, s. auto.
      * destruct (IH results) as (H1 & H2). split; [exact H1|].
        intros m Hm. destruct (H2 m Hm) as [? | (k & s & ? & ? & ? & ?)]; [auto|].
        right. exists k, s. auto.
Qed.

(** X21.  [peekMessagesByPriority] leaves the storage as it is and returns
    at most [limit] messages; each is a stored message as stored (same
    handle and [receiveCount]), not hidden at that time, with the priority
    asked for. *)
Theorem peek_lists_visible_messages_of_priority (wanted limit now : Z) (st : t) :
  exists results,
    peekMessagesByPriority wanted limit now st = (Ok results, st) /\
    Z.of_nat (List.length results) <= Z.max limit 0 /\
    forall m, In m results ->
      exists key stored,
        In (key, stored) (messages st) /\ m = message stored /\
        isHidden now stored = false /\
        priority_value (req_priority (payload m)) = wanted.
Proof.
  eexists. split; [reflexivity|].
  destruct (peekLoop_spec (messages st) wanted limit now []) as (H1 & H2).
  split; [exact H1|]. intros m Hm. destruct (H2 m Hm) as [[] | H]. exact H.
Qed.

(** **** [purge] *)

(** X22.  After [purge] the storage holds no message: [dequeue] returns
    nothing, the visible count is 0 and every receipt handle is not-found.
    The id counter is kept, so the next [enqueue] continues the numbering
    instead of starting again at [msg-1]. *)
Theorem purge_empties_but_keeps_numbering (now : Z) (st : t) :
  exists st',
    purge now st = (Ok tt, st') /\
    messageCounter st' = messageCounter st /\
    nextId st' = nextId st /\
    (forall limit seconds later, fst (dequeue limit seconds later st') = Ok []) /\
    (forall later, fst (getApproximateMessageCount later st') = Ok 0) /\
    (forall h later, deleteMessage h later st' = (Throw (notFound h), st')) /\
    (forall h seconds later,
       updateVisibilityTimeout h seconds later st' = (Throw (notFound h), st')).
Proof.
  eexists. split; [reflexivity|]. repeat split.
Qed.

End InMemoryStorageDelivery.


(** *** Further properties of the dispatcher *)

Module DispatcherDelivery.
Import JS Dispatcher Statements DispatcherStatements DispatcherFacts.
Import Effect.Notations.

Section Delivery.

Context {St : Type}.
Variable adapter : QueueStorageAdapter St.
Variable config : LLMQueueDispatcherConfig.

(** **** What [dequeue] hands out *)

Lemma ensures_bind {A B : Type} (m : M (t St) A) (k : A -> M (t St) B)
    (post : B -> t St -> Prop) :
  (forall a, ensures (k a) post) -> ensures (bind m k) post.
Proof.
  intros Hk d b d'. unfold bind. destruct (m d) as [[a|e] d1]; [|discriminate].
  apply Hk.
Qed.

Lemma ensures_tryCatch {A : Type} (m : M (t St) A) (h : string -> M (t St) A)
    (post : A -> t St -> Prop) :
  ensures m post -> (forall e, ensures (h e) post) -> ensures (tryCatch m h) post.
Proof.
  intros Hm Hh d a d'. unfold tryCatch. destruct (m d) as [[a0|e] d1] eqn:E.
  - intros Heq. injection Heq as <- <-. apply (Hm d), E.
  - apply Hh.
Qed.

Lemma ensures_null (rateLimiter : LLMThrottle) (now : Z) :
  ensures (St := St) (ret None) (handedOut rateLimiter now).
Proof. intros d a d' H. injection H as <- <-. exact I. Qed.

Lemma ensures_log_null (rateLimiter : LLMThrottle) (now : Z)
    (level : LogLevel) (line : string) :
  ensures (St := St) (log level line ;;; ret None) (handedOut rateLimiter now).
Proof. intros d a d' H. injection H as <- <-. exact I. Qed.

Lemma ensures_prepare (rateLimiter : LLMThrottle) (now : Z) (message : QueueMessage) :
  admitted rateLimiter message ->
  ensures (p <- prepareForProcessing (St := St) message now ;; ret (Some p))
          (handedOut rateLimiter now).
Proof.
  intros Hadm d a d' H. injection H as <- <-. simpl.
  split; [exact Hadm|]. split; [reflexivity|].
  apply InMemoryStorageDelivery.get_set_same.
Qed.

Lemma dropNull_in {A : Type} (l : list (option A)) (x : A) :
  In x (dropNull l) -> In (Some x) l.
Proof.
  induction l as [|[y|] l IH]; simpl; [auto| |auto].
  intros [-> | H]; auto.
Qed.

Lemma mapResult_origin {A B : Type} (f : A -> Result B) (l : list A) (mapped : list B) :
  mapResult f l = Ok mapped ->
  forall y, In y mapped -> exists x, In x l /\ f x = Ok y.
Proof.
  revert mapped. induction l as [|x l IH]; intros mapped; simpl.
  - intros H. injection H as <-. contradiction.
  - destruct (f x) as [y0|e] eqn:Ex; [|discriminate].
    destruct (mapResult f l) as [ys|e]; [|discriminate].
    intros H. injection H as <-. intros y [<- | Hy].
    + exists x. auto.
    + destruct (IH ys eq_refl y Hy) as (x' & H1 & H2). exists x'. auto.
Qed.

Lemma fold_better_in {Score : Type} (scorer : Calculator Score)
    (rest : list (ScoredMessage Score)) (first : ScoredMessage Score) :
  In (fold_left (better scorer) rest first) (first :: rest).
Proof.
  revert first. induction rest as [|cur rest IH]; intros first; simpl; [auto|].
  destruct (IH (better scorer first cur)) as [H | H]; [|auto].
  unfold better in H at 1.
  destruct (gt (totalOf scorer (scored_score cur)) (totalOf scorer (scored_score first)));
    auto.
Qed.

(** A selection is always a candidate that the limiter admitted. *)
Lemma select_admits {Score : Type} (scorer : Calculator Score)
    (candidates : list QueueMessage) (rateLimiter : LLMThrottle)
    (now : Z) (sel : MessageSelection Score) (d d' : t St) :
  selectOptimalMessage config scorer candidates rateLimiter now d = (Ok (Some sel), d') ->
  In (selection_message sel) candidates /\
  admitted rateLimiter (selection_message sel).
Proof.
  unfold selectOptimalMessage, bind, liftResult, getReport.
  destruct (getMetrics rateLimiter) as [limiterMetrics|e]; [|discriminate].
  destruct (MetricsCollector.getReport now (metrics d)) as [report cleaned].
  cbv zeta.
  destruct (mapResult _ candidates) as [mapped|e] eqn:Emap; [|discriminate].
  destruct (dropNull mapped) as [|first rest] eqn:Edrop; [discriminate|].
  destruct (lt _ _); [discriminate|].
  intros H. injection H as <- _. cbn [selection_message].
  pose proof (fold_better_in scorer rest first) as Hin. rewrite <- Edrop in Hin.
  apply dropNull_in in Hin.
  destruct (mapResult_origin _ _ _ Emap _ Hin) as (c & Hc & Hscore).
  unfold scoreCandidate in Hscore.
  destruct (canProcess rateLimiter (estimated (payload c))) as [answer|e] eqn:Ecan;
    [|discriminate].
  destruct (allowed answer) eqn:Eallowed; simpl in Hscore; [|discriminate].
  injection Hscore as Hs. rewrite <- Hs. cbn [scored_message].
  split; [exact Hc|]. exists answer. auto.
Qed.

Lemma ensures_select {Score : Type} (scorer : Calculator Score)
    (candidates : list QueueMessage) (rateLimiter : LLMThrottle) (now : Z)
    (k : option (MessageSelection Score) -> M (t St) (option ProcessableMessage)) :
  ensures (k None) (handedOut rateLimiter now) ->
  (forall sel, admitted rateLimiter (selection_message sel) ->
               ensures (k (Some sel)) (handedOut rateLimiter now)) ->
  ensures (bind (selectOptimalMessage config scorer candidates rateLimiter now) k)
          (handedOut rateLimiter now).
Proof.
  intros Hnone Hsome d a d'. unfold bind.
  destruct (selectOptimalMessage config scorer candidates rateLimiter now d)
    as [[[sel|]|e] d1] eqn:E; [| apply Hnone | discriminate].
  apply Hsome. apply (select_admits _ _ _ _ _ _ _ E).
Qed.

Lemma fetchAndProcessDirectly_handedOut (rateLimiter : LLMThrottle) (now : Z) :
  ensures (fetchAndProcessDirectly adapter config rateLimiter now)
          (handedOut rateLimiter now).
Proof.
  unfold fetchAndProcessDirectly.
  apply ensures_tryCatch; [|intros e; apply ensures_log_null].
  apply ensures_bind. intros messages.
  destruct (List.length messages =? 0)%nat; [apply ensures_null|].
  apply ensures_select; [apply ensures_null|].
  intros sel Hadm. apply ensures_prepare, Hadm.
Qed.

(** X23.  A handle returned by [dequeue] is for a message that the limiter
    admitted, and when [dequeue] returns, the in-flight index maps the
    message's id to the handle's entry, with the time of the call as start
    time. *)
Theorem dequeue_hands_out_admitted_and_tracked
    (rateLimiter : LLMThrottle) (now : Z) (d d' : t St) (p : ProcessableMessage) :
  dequeue adapter config rateLimiter now d = (Ok (Some p), d') ->
  admitted rateLimiter (processable_message p) /\
  processable_entry p = mkInFlight (processable_message p) now /\
  JSMap.get (id (processable_message p)) (inFlightMessages d')
  = Some (processable_entry p).
Proof.
  intros H.
  assert (Hens : ensures (dequeue adapter config rateLimiter now)
                         (handedOut rateLimiter now)).
  { unfold dequeue.
    apply ensures_tryCatch; [|intros e; apply ensures_log_null].
    apply ensures_bind. intros size. apply ensures_bind. intros _.
    apply ensures_bind. intros candidates.
    destruct ((List.length candidates =? 0)%nat && negb (flag (enablePrefetch config))).
    - apply fetchAndProcessDirectly_handedOut.
    - apply ensures_select; [apply ensures_null|].
      intros sel Hadm. apply ensures_bind. intros _. apply ensures_prepare, Hadm. }
  exact (Hens d (Some p) d' H).
Qed.

(** **** With the prefetch worker enabled *)



(** With the worker enabled, [dequeue] is the selection among the buffered
    candidates. *)
Lemma dequeue_from_buffer (rateLimiter : LLMThrottle) (now : Z) (d : t St)
    (sel : MessageSelection MessageScore) :
  flag (enablePrefetch config) = true ->
  fst (selectOptimalMessage config (calculator config)
         (PriorityBuffer.peekByPriority (prefetchBuffer d)
            (Some (or_default (maxCandidatesToEvaluate config) 20)))
         rateLimiter now d) = Ok (Some sel) ->
  fst (dequeue adapter config rateLimiter now d)
  = Ok (Some (mkProcessable (selection_message sel)
                (mkInFlight (selection_message sel) now))).
Proof.
  intros Hon Hsel.
  rewrite (dequeue_prefetch_enabled adapter config rateLimiter now d Hon).
  unfold selectFromBuffer, tryCatch, bind.
  destruct (selectOptimalMessage config (calculator config) _ rateLimiter now d)
    as [r d1]. cbn [fst] in Hsel. rewrite Hsel. reflexivity.
Qed.

End Delivery.

Lemma select_single {St : Type} (config : LLMQueueDispatcherConfig) (c : QueueMessage)
    (answer : R -> CanProcessResult) (limiterMetrics : RateLimitMetrics) (now : Z)
    (d : t St) :
  let context :=
    mkContext limiterMetrics (fst (MetricsCollector.getReport now (metrics d))) now in
  allowed (answer (estimated (payload c))) = true ->
  (or_defaultR (minScoreThreshold config) 0.1
   <= total (ScoreCalculator.calculateScore (scoreCalculator config) c context))%R ->
  fst (selectOptimalMessage config (calculator config) [c]
         (mkThrottle (fun tokens => Ok (answer tokens)) (Ok limiterMetrics)) now d)
  = Ok (Some (mkSelection c
                (ScoreCalculator.calculateScore (scoreCalculator config) c context))).
Proof.
  intros context Hallowed Hthr. subst context.
  unfold selectOptimalMessage, bind, liftResult, getReport.
  cbn [getMetrics].
  destruct (MetricsCollector.getReport now (metrics d)) as [report cleaned].
  cbn [fst] in *. cbn [mapResult]. unfold scoreCandidate. cbn [canProcess].
  rewrite Hallowed.
  cbn [negb dropNull fold_left scored_score scored_message calculator totalOf
       calculateScore].
  unfold lt, Rltb. destruct (Rlt_dec _ _) as [Hlt | _]; [lra | reflexivity].
Qed.

(** The NORMAL sample message scores at least the default threshold. *)
Lemma sample_total_reaches_threshold (report : QueueMetricsReport) :
  (0.1 <= total (ScoreCalculator.calculateScore (scoreCalculator Examples.prefetchConfig)
                   (Examples.sampleMessage "a" NORMAL)
                   (mkContext (mkMetrics 1500 2000) report 5000)))%R.
Proof.
  unfold ScoreCalculator.calculateScore. cbn [total fold_left].
  cbn [b_priority b_efficiency b_waitTime b_retry b_tokenFit b_processingTime
       ScoreCalculator.baseScores].
  set (m := Examples.sampleMessage "a" NORMAL).
  set (ctx := mkContext (mkMetrics 1500 2000) report 5000).
  assert (Hest : (0 < estimated (payload m))%R) by (simpl; lra).
  pose proof (ScoreCalculatorFacts.efficiencyScore_bounds (estimated (payload m))
                (tpm_available (rateLimiterMetrics ctx))
                (tpm_limit (rateLimiterMetrics ctx)) Hest) as B2.
  assert (Hwait : (0 <= IZR (currentTime ctx - enqueuedAt (attributes m)))%R)
    by (apply IZR_le; simpl; lia).
  pose proof (ScoreCalculatorFacts.waitTimeScore_bounds _ (req_priority (payload m)) Hwait) as B3.
  pose proof (ScoreCalculatorFacts.retryPenalty_bounds (receiveCount (attributes m))) as B4.
  pose proof (ScoreCalculatorFacts.tokenFitScore_bounds (estimated (payload m))
                (tpm_available (rateLimiterMetrics ctx)) Hest) as B5.
  pose proof (ScoreCalculatorFacts.processingTimeScore_bounds (estimated (payload m))
                (expectedProcessingTime (payload m))) as B6.
  change (ScoreCalculator.calculatePriorityScore (req_priority (payload m)))
    with 0.4%R.
  change (ScoreCalculator.calc_weights (scoreCalculator Examples.prefetchConfig))
    with ScoreCalculator.getDefaultWeights.
  change (ScoreCalculator.calc_customScorers (scoreCalculator Examples.prefetchConfig))
    with (@nil CustomScorer).
  cbn [fold_left w_priority w_efficiency w_waitTime w_retry w_tokenFit
       w_processingTime ScoreCalculator.getDefaultWeights].
  nra.
Qed.

(** A dispatcher with the worker enabled whose buffer holds the sample
    message hands it out under a limiter that admits everything. *)
Lemma sample_dequeue :
  fst (dequeue Examples.recordingAdapter Examples.prefetchConfig Examples.allowAll 5000
         (Examples.dispatcherHolding 5 ["a"%string]))
  = Ok (Some Examples.sampleHandle).
Proof.
  apply (dequeue_from_buffer Examples.recordingAdapter Examples.prefetchConfig
           Examples.allowAll 5000 (Examples.dispatcherHolding 5 ["a"%string])
           (mkSelection (Examples.sampleMessage "a" NORMAL)
              (ScoreCalculator.calculateScore (scoreCalculator Examples.prefetchConfig)
                 (Examples.sampleMessage "a" NORMAL)
                 (mkContext (mkMetrics 1500 2000)
                    (fst (MetricsCollector.getReport 5000
                            (metrics (Examples.dispatcherHolding 5 ["a"%string]))))
                    5000)))).
  - reflexivity.
  - change (PriorityBuffer.peekByPriority _ _) with [Examples.sampleMessage "a" NORMAL].
    apply (select_single Examples.prefetchConfig (Examples.sampleMessage "a" NORMAL)
             (fun _ => mkCanProcess true None)).
    + reflexivity.
    + change (or_defaultR (minScoreThreshold Examples.prefetchConfig) 0.1%R) with 0.1%R.
      apply sample_total_reaches_threshold.
Qed.

Lemma dequeue_hands_out_admitted_and_tracked_witness :
  admitted Examples.allowAll (Examples.sampleMessage "a" NORMAL) /\
  JSMap.get "a"
    (inFlightMessages
       (snd (dequeue Examples.recordingAdapter Examples.prefetchConfig Examples.allowAll
               5000 (Examples.dispatcherHolding 5 ["a"%string]))))
  = Some (mkInFlight (Examples.sampleMessage "a" NORMAL) 5000).
Proof.
  destruct (dequeue_hands_out_admitted_and_tracked
              Examples.recordingAdapter Examples.prefetchConfig Examples.allowAll 5000
              (Examples.dispatcherHolding 5 ["a"%string])
              (snd (dequeue Examples.recordingAdapter Examples.prefetchConfig
                      Examples.allowAll 5000 (Examples.dispatcherHolding 5 ["a"%string])))
              Examples.sampleHandle) as (H1 & _ & H3).
  - rewrite <- sample_dequeue. apply surjective_pairing.
  - split; [exact H1 | exact H3].
Defined.


End DispatcherDelivery.


(** *** The buffer bound, the worker and the acknowledgement paths *)

Module DispatcherLifecycle.
Import JS Dispatcher Statements DispatcherStatements DispatcherFacts.
Import Effect.Notations.

Lemma add_within_capacity (b : PriorityBuffer.t) m p s :
  Z.of_nat (PriorityBuffer.size b) <= PriorityBuffer.maxSize b ->
  Z.of_nat (PriorityBuffer.size (snd (PriorityBuffer.add b m p s)))
  <= PriorityBuffer.maxSize b.
Proof.
  intros Hle.
  destruct (Z_lt_ge_dec (Z.of_nat (PriorityBuffer.size b)) (PriorityBuffer.maxSize b))
    as [Hlt | Hge].
  - rewrite (PriorityBufferFacts.add_not_full b m p s Hlt).
    unfold PriorityBuffer.size in *. simpl.
    rewrite PriorityBufferFacts.sortItems_length, length_app. simpl. lia.
  - destruct (PriorityBuffer.buffer b) eqn:Eb.
    + rewrite PriorityBufferFacts.add_full_empty; auto.
    + destruct (PriorityBufferFacts.add_full b m p s Hge)
        as (i & low & _ & Hnth & _ & Hev & Hrej); [rewrite Eb; discriminate|].
      destruct (Z_lt_ge_dec (priority_value p)
                  (priority_value (PriorityBuffer.priority low))) as [H1 | H1].
      * destruct (Hev H1) as (_ & Hbuf). unfold PriorityBuffer.size in *.
        rewrite Hbuf, PriorityBufferFacts.sortItems_length, length_app.
        pose proof (PriorityBufferFacts.splice1_perm i _ low Hnth) as Hp.
        apply Permutation_length in Hp. simpl in *. lia.
      * rewrite Hrej by lia. exact Hle.
Qed.

Section Lifecycle.

Context {St : Type}.
Variable adapter : QueueStorageAdapter St.
Variable config : LLMQueueDispatcherConfig.

(** **** The buffer bound *)

Lemma capacity_same_buffer {A : Type} (m : M (t St) A) :
  (forall d, prefetchBuffer (snd (m d)) = prefetchBuffer d) -> keepsCapacity m.
Proof.
  intros H d Hd. unfold withinCapacity in *. rewrite H. auto.
Qed.

Lemma capacity_bind {A B : Type} (m : M (t St) A) (k : A -> M (t St) B) :
  keepsCapacity m -> (forall a, keepsCapacity (k a)) -> keepsCapacity (bind m k).
Proof.
  intros Hm Hk d Hd. unfold bind. destruct (Hm d Hd) as (H1 & H2).
  destruct (m d) as [[a|e] d1]; simpl in *; [|auto].
  destruct (Hk a d1 H1) as (H3 & H4). split; [exact H3 | congruence].
Qed.

Lemma capacity_tryCatch {A : Type} (m : M (t St) A) (h : string -> M (t St) A) :
  keepsCapacity m -> (forall e, keepsCapacity (h e)) -> keepsCapacity (tryCatch m h).
Proof.
  intros Hm Hh d Hd. unfold tryCatch. destruct (Hm d Hd) as (H1 & H2).
  destruct (m d) as [[a|e] d1]; simpl in *; [auto|].
  destruct (Hh e d1 H1) as (H3 & H4). split; [exact H3 | congruence].
Qed.

Lemma capacity_forEach {A : Type} (l : list A) (body : A -> M (t St) unit) :
  (forall x, keepsCapacity (body x)) -> keepsCapacity (forEach l body).
Proof.
  intros Hb. induction l as [|x l IH]; simpl.
  - apply capacity_same_buffer. reflexivity.
  - apply capacity_bind; auto.
Qed.

Lemma capacity_onStorage {A : Type} (op : M St A) : keepsCapacity (onStorage op).
Proof.
  apply capacity_same_buffer. intros d. unfold onStorage.
  destruct (op (storage d)). reflexivity.
Qed.

Lemma capacity_add (message : QueueMessage) :
  keepsCapacity (St := St)
    (modify (fun d =>
       withBuffer d
         (snd (PriorityBuffer.add (prefetchBuffer d) message
                 (req_priority (payload message)) None)))).
Proof.
  intros d Hd. unfold withinCapacity in *. simpl.
  rewrite PriorityBufferFacts.add_maxSize. split; [|reflexivity].
  apply add_within_capacity, Hd.
Qed.

Lemma capacity_remove (message : QueueMessage) :
  keepsCapacity (St := St)
    (modify (fun d =>
       withBuffer d (snd (PriorityBuffer.remove (prefetchBuffer d) message)))).
Proof.
  intros d Hd. unfold withinCapacity in *. simpl.
  destruct (PriorityBufferFacts.remove_size (prefetchBuffer d) message) as (H1 & H2).
  rewrite H2. split; [lia | reflexivity].
Qed.

Lemma capacity_select {Score : Type} (scorer : Calculator Score)
    (candidates : list QueueMessage) (rateLimiter : LLMThrottle) (now : Z) :
  keepsCapacity (St := St)
    (selectOptimalMessage config scorer candidates rateLimiter now).
Proof.
  unfold selectOptimalMessage.
  apply capacity_bind; [apply capacity_same_buffer; reflexivity|]. intros limiterMetrics.
  apply capacity_bind.
  { apply capacity_same_buffer. intros d. unfold getReport.
    destruct (MetricsCollector.getReport now (metrics d)). reflexivity. }
  intros report. cbv zeta.
  apply capacity_bind; [apply capacity_same_buffer; reflexivity|]. intros mapped.
  destruct (dropNull mapped); [apply capacity_same_buffer; reflexivity|].
  destruct (lt _ _); apply capacity_same_buffer; reflexivity.
Qed.

Lemma capacity_prefetchMessages (now : Z) :
  keepsCapacity (prefetchMessages adapter config now).
Proof.
  unfold prefetchMessages.
  apply capacity_tryCatch; [|intros e; apply capacity_same_buffer; reflexivity].
  apply capacity_bind; [apply capacity_same_buffer; reflexivity|]. intros size.
  destruct (needed config size <=? 0); [apply capacity_same_buffer; reflexivity|].
  apply capacity_bind; [apply capacity_onStorage|]. intros messages.
  apply capacity_bind.
  - apply capacity_forEach. intros message. apply capacity_add.
  - intros _. destruct (0 <? List.length messages)%nat;
      apply capacity_same_buffer; reflexivity.
Qed.

Lemma capacity_dequeue (rateLimiter : LLMThrottle) (now : Z) :
  keepsCapacity (dequeue adapter config rateLimiter now).
Proof.
  unfold dequeue.
  apply capacity_tryCatch; [|intros e; apply capacity_same_buffer; reflexivity].
  apply capacity_bind; [apply capacity_same_buffer; reflexivity|]. intros size.
  apply capacity_bind.
  { destruct ((Z.of_nat size <? 10) && negb (flag (enablePrefetch config)));
      [apply capacity_prefetchMessages | apply capacity_same_buffer; reflexivity]. }
  intros _.
  apply capacity_bind; [apply capacity_same_buffer; reflexivity|]. intros candidates.
  destruct ((List.length candidates =? 0)%nat && negb (flag (enablePrefetch config))).
  - unfold fetchAndProcessDirectly.
    apply capacity_tryCatch; [|intros e; apply capacity_same_buffer; reflexivity].
    apply capacity_bind; [apply capacity_onStorage|]. intros messages.
    destruct (List.length messages =? 0)%nat; [apply capacity_same_buffer; reflexivity|].
    apply capacity_bind; [apply capacity_select|].
    intros [sel|]; apply capacity_same_buffer; reflexivity.
  - apply capacity_bind; [apply capacity_select|].
    intros [sel|]; [|apply capacity_same_buffer; reflexivity].
    apply capacity_bind; [apply capacity_remove|]. intros _.
    apply capacity_same_buffer. reflexivity.
Qed.

Lemma capacity_prefetchTick (now : Z) : keepsCapacity (prefetchTick adapter config now).
Proof.
  unfold prefetchTick.
  apply capacity_bind; [apply capacity_prefetchMessages|]. intros _.
  apply capacity_bind; [apply capacity_same_buffer; reflexivity|]. intros buffered.
  apply capacity_forEach. intros message.
  apply capacity_tryCatch; [apply capacity_onStorage|]. intros e.
  apply capacity_bind; [apply capacity_same_buffer; reflexivity|]. intros _.
  apply capacity_remove.
Qed.

(** **** The worker *)

Lemma neverThrows_bind {S' A B : Type} (m : M S' A) (k : A -> M S' B) :
  neverThrows m -> (forall a, neverThrows (k a)) -> neverThrows (bind m k).
Proof.
  intros Hm Hk s. unfold bind. destruct (Hm s) as (a & s1 & ->). apply Hk.
Qed.

Lemma neverThrows_forEach {S' A : Type} (l : list A) (body : A -> M S' unit) :
  (forall x, neverThrows (body x)) -> neverThrows (forEach l body).
Proof.
  intros Hb. induction l as [|x l IH]; simpl.
  - intros s. eexists _, _. reflexivity.
  - apply neverThrows_bind; auto.
Qed.

Lemma prefetchTick_neverThrows (now : Z) : neverThrows (prefetchTick adapter config now).
Proof.
  unfold prefetchTick.
  apply neverThrows_bind; [apply prefetchMessages_neverThrows|]. intros _.
  apply neverThrows_bind; [intros d; eexists _, _; reflexivity|]. intros buffered.
  apply neverThrows_forEach. intros message.
  apply tryCatch_neverThrows. intros e d. eexists _, _. reflexivity.
Qed.

Lemma prefetchTick_keepsInFlight (now : Z) : keepsInFlight (prefetchTick adapter config now).
Proof.
  unfold prefetchTick.
  apply keeps_bind; [apply keeps_prefetchMessages|]. intros _.
  apply keeps_bind; [apply keeps_gets|]. intros buffered.
  apply keeps_forEach. intros message.
  apply keeps_tryCatch; [apply keeps_onStorage|]. intros e.
  apply keeps_bind; [apply keeps_log | intros _; apply keeps_withBuffer].
Qed.

End Lifecycle.

(** X25.  A prefetch buffer within its capacity stays within it, with the
    capacity unchanged, through [dequeue] and through a tick of the prefetch
    worker, whatever the storage returns; the buffer of a new dispatcher is
    within its capacity when the capacity is not negative. *)
Theorem buffer_never_exceeds_capacity
    (St : Type) (adapter : QueueStorageAdapter St)
    (config : LLMQueueDispatcherConfig) (rateLimiter : LLMThrottle)
    (now : Z) (d : t St) :
  withinCapacity d ->
  (withinCapacity (snd (dequeue adapter config rateLimiter now d)) /\
   PriorityBuffer.maxSize (prefetchBuffer (snd (dequeue adapter config rateLimiter now d)))
   = PriorityBuffer.maxSize (prefetchBuffer d)) /\
  (withinCapacity (snd (prefetchTick adapter config now d)) /\
   PriorityBuffer.maxSize (prefetchBuffer (snd (prefetchTick adapter config now d)))
   = PriorityBuffer.maxSize (prefetchBuffer d)) /\
  (forall s : St, 0 <= or_default (bufferSize config) 50 ->
     withinCapacity (create config s)).
Proof.
  intros Hd. split; [|split].
  - apply capacity_dequeue, Hd.
  - apply capacity_prefetchTick, Hd.
  - intros s Hcap. unfold create, withinCapacity.
    destruct (flag (enablePrefetch config)); simpl; exact Hcap.
Qed.

Lemma buffer_never_exceeds_capacity_witness :
  withinCapacity
    (snd (dequeue inMemoryAdapter (Examples.configWithBufferSize 1) Examples.denyAll 2000
            (create (Examples.configWithBufferSize 1) Examples.storedOnce))).
Proof.
  apply (buffer_never_exceeds_capacity InMemoryStorage.t inMemoryAdapter
           (Examples.configWithBufferSize 1) Examples.denyAll 2000
           (create (Examples.configWithBufferSize 1) Examples.storedOnce)).
  unfold withinCapacity. simpl. lia.
Defined.

(** X26.  A tick of the prefetch worker returns normally whatever the
    storage does, rejections included, and leaves the dispatcher's
    in-flight index as it was. *)
Theorem prefetch_tick_never_throws
    (St : Type) (adapter : QueueStorageAdapter St)
    (config : LLMQueueDispatcherConfig) (now : Z) (d : t St) :
  exists d',
    prefetchTick adapter config now d = (Ok tt, d') /\
    inFlightMessages d' = inFlightMessages d.
Proof.
  destruct (prefetchTick_neverThrows adapter config now d) as ([] & d' & Heq).
  exists d'. split; [exact Heq|].
  pose proof (prefetchTick_keepsInFlight adapter config now d) as H.
  rewrite Heq in H. exact H.
Qed.

(** A storage that rejects every call: the tick logs the failed prefetch,
    warns about the message whose visibility it could not extend and drops
    that message from the buffer. *)
Example tick_drops_unrenewable_message :
  let d := mkDispatcher tt JSMap.empty
             (PriorityBuffer.mkBuffer
                [PriorityBuffer.mkItem (Examples.sampleMessage "a" NORMAL) NORMAL None] 5)
             (MetricsCollector.create None None) [] (Some 5000) in
  let r := prefetchTick Examples.failingAdapter Examples.defaultConfig 9000 d in
  fst r = Ok tt /\
  PriorityBuffer.buffer (prefetchBuffer (snd r)) = [] /\
  logged (snd r)
  = [(Error, "Prefetch error: Storage error");
     (Warn, "Failed to update visibility for message a")]%string.
Proof. repeat split; vm_compute; reflexivity. Qed.

(** **** Acknowledgement *)

(** X27.  [markAsFailed] makes no storage call and cannot fail: it takes
    the message's id out of the in-flight index and passes the failure to
    the metrics collector.  [markAsProcessed] first deletes by the receipt
    handle it reads: when the storage rejects, the rejection reaches the
    caller and the in-flight index, the collector and the log are as before,
    so the message stays tracked; when the storage accepts, the id leaves
    the index and a completion with the processing time [now - startedAt]
    is passed to the collector. *)
Theorem acknowledgement_paths
    (St : Type) (adapter : QueueStorageAdapter St)
    (p : ProcessableMessage) (handle : string) (now : Z) (d : t St) :
  let message := processable_message p in
  (forall error, exists d',
     markAsFailed p error now d = (Ok tt, d') /\
     storage d' = storage d /\
     prefetchBuffer d' = prefetchBuffer d /\
     JSMap.get (id message) (inFlightMessages d') = None /\
     metrics d' = MetricsCollector.recordFailure message error now (metrics d)) /\
  (forall e s',
     storage_deleteMessage adapter handle now (storage d) = (Throw e, s') ->
     markAsProcessed adapter p handle now d = (Throw e, withStorage d s')) /\
  (forall s',
     storage_deleteMessage adapter handle now (storage d) = (Ok tt, s') ->
     exists d',
       markAsProcessed adapter p handle now d = (Ok tt, d') /\
       storage d' = s' /\
       prefetchBuffer d' = prefetchBuffer d /\
       JSMap.get (id message) (inFlightMessages d') = None /\
       metrics d'
       = MetricsCollector.recordComplete message (now - startedAt (processable_entry p))
           now (metrics d)).
Proof.
  intros message. split; [|split].
  - intros error. eexists. split; [reflexivity|]. simpl.
    repeat split. apply InMemoryStorageFacts.get_delete_same.
  - intros e s' Hdel. unfold markAsProcessed, bind, onStorage.
    rewrite Hdel. reflexivity.
  - intros s' Hdel. unfold markAsProcessed, bind, onStorage.
    rewrite Hdel. eexists. split; [reflexivity|]. simpl.
    repeat split. apply InMemoryStorageFacts.get_delete_same.
Qed.

Lemma acknowledgement_paths_witness :
  markAsProcessed Examples.failingAdapter Examples.sampleHandle "receipt-a" 6000
    (mkDispatcher tt [("a"%string, processable_entry Examples.sampleHandle)]
       (PriorityBuffer.create 50) (MetricsCollector.create None None) [] None)
  = (Throw "Storage error"%string,
     mkDispatcher tt [("a"%string, processable_entry Examples.sampleHandle)]
       (PriorityBuffer.create 50) (MetricsCollector.create None None) [] None).
Proof.
  destruct (acknowledgement_paths unit Examples.failingAdapter Examples.sampleHandle
              "receipt-a" 6000
              (mkDispatcher tt [("a"%string, processable_entry Examples.sampleHandle)]
                 (PriorityBuffer.create 50) (MetricsCollector.create None None) [] None))
    as (_ & H & _).
  apply (H "Storage error"%string tt). reflexivity.
Defined.

(** **** [purge] *)

(** X28.  [purge] stops the worker and empties the in-flight index and the
    prefetch buffer before it calls the storage, so they are cleared even
    when the storage's [purge] rejects; that rejection reaches the caller.
    Without a storage [purge] the call succeeds and the storage is not
    touched. *)
Theorem purge_clears_before_storage
    (St : Type) (adapter : QueueStorageAdapter St) (now : Z) (d : t St) :
  let r := purge adapter now d in
  inFlightMessages (snd r) = [] /\
  PriorityBuffer.buffer (prefetchBuffer (snd r)) = [] /\
  PriorityBuffer.maxSize (prefetchBuffer (snd r)) = PriorityBuffer.maxSize (prefetchBuffer d) /\
  prefetchIntervalTimer (snd r) = None /\
  (storage_purge adapter = None -> fst r = Ok tt /\ storage (snd r) = storage d) /\
  (forall storagePurge e s',
     storage_purge adapter = Some storagePurge ->
     storagePurge now (storage d) = (Throw e, s') ->
     fst r = Throw e /\ logged (snd r) = logged d).
Proof.
  intros r. subst r.
  destruct (storage_purge adapter) as [storagePurge|] eqn:Esp.
  - destruct (storagePurge now (storage d)) as [[[]|e] s'] eqn:E;
      unfold purge, bind, modify, onStorage; rewrite Esp; simpl; rewrite E; simpl;
      (do 4 (split; [reflexivity|])); (split; [intros H; discriminate H|]);
      intros sp e0 s0 Hsp Hthrow; injection Hsp as <-; rewrite E in Hthrow.
    + discriminate Hthrow.
    + injection Hthrow as <- _. split; reflexivity.
  - unfold purge, bind, modify. rewrite Esp. simpl.
    do 4 (split; [reflexivity|]). split; [auto|]. intros sp e s' H. discriminate H.
Qed.

(** **** [batchEnqueue] *)

Lemma batchEnqueueLoop_acc (requests : list LLMRequest) (now : Z)
    (acc : list QueueMessage) (st : InMemoryStorage.t) :
  exists queued st',
    InMemoryStorage.batchEnqueueLoop requests now acc st = (Ok (acc ++ queued), st') /\
    InMemoryStorage.batchEnqueueLoop requests now [] st = (Ok queued, st').
Proof.
  revert acc st. induction requests as [|r rest IH]; intros acc st.
  - exists [], st. simpl. rewrite app_nil_r. auto.
  - simpl InMemoryStorage.batchEnqueueLoop. unfold bind.
    destruct (InMemoryStorage.enqueue r now st) as [[first|e] st1] eqn:E;
      [|unfold InMemoryStorage.enqueue in E; discriminate].
    destruct (IH (acc ++ [first]) st1) as (queued & st' & H1 & H2).
    destruct (IH [first] st1) as (queued' & st'' & H3 & H4).
    rewrite H4 in H2. injection H2 as -> ->.
    exists (first :: queued), st'. split.
    + rewrite H1, <- app_assoc. reflexivity.
    + cbn [app]. rewrite H3. reflexivity.
Qed.

Lemma forEach_recordEnqueue (queued : list QueueMessage) (now : Z)
    (d : t InMemoryStorage.t) :
  forEach queued (fun msg => onMetrics (MetricsCollector.recordEnqueue msg now)) d
  = (Ok tt,
     withMetrics d
       (fold_left (fun c msg => MetricsCollector.recordEnqueue msg now c) queued
          (metrics d))).
Proof.
  revert d. induction queued as [|m l IH]; intros d; simpl.
  - destruct d; reflexivity.
  - unfold bind, onMetrics, modify. rewrite IH. reflexivity.
Qed.

Lemma sequential_enqueue (requests : list LLMRequest) (now : Z)
    (d : t InMemoryStorage.t) :
  exists queued st' d',
    InMemoryStorage.batchEnqueue requests now (storage d) = (Ok queued, st') /\
    forEach requests (fun request => enqueue inMemoryAdapter request now) d = (Ok tt, d') /\
    storage d' = st' /\
    metrics d'
    = fold_left (fun c msg => MetricsCollector.recordEnqueue msg now c) queued (metrics d) /\
    inFlightMessages d' = inFlightMessages d /\
    prefetchBuffer d' = prefetchBuffer d.
Proof.
  unfold InMemoryStorage.batchEnqueue.
  revert d. induction requests as [|r rest IH]; intros d.
  - exists [], (storage d), d. simpl. repeat split.
  - simpl forEach. simpl InMemoryStorage.batchEnqueueLoop. unfold bind at 1 2.
    unfold enqueue at 1. unfold bind at 1. unfold onStorage at 1.
    cbn [storage_enqueue inMemoryAdapter].
    destruct (InMemoryStorage.enqueue r now (storage d)) as [[first|e] st1] eqn:E;
      [|unfold InMemoryStorage.enqueue in E; discriminate].
    destruct (batchEnqueueLoop_acc rest now [first] st1)
      as (queued & st' & H1 & H2).
    cbn [app]. rewrite H1.
    cbv beta iota delta [bind onMetrics log modify withStorage].
    match goal with
    | |- context [forEach rest _ ?dd] =>
        destruct (IH dd) as (queued' & st'' & d' & H3 & H4 & H5 & H6 & H7 & H8)
    end.
    simpl storage in H3. rewrite H2 in H3. injection H3 as <- <-.
    exists (first :: queued), st', d'. simpl in *.
    repeat split; auto.
Qed.

(** X29.  Over the in-memory storage, and at one reading of the clock, the
    two paths of [batchEnqueue], the storage's own batch method and the
    sequence of single [enqueue] calls taken when the storage has none,
    both succeed and leave the same storage, the same metrics collector,
    and the same in-flight index and buffer; only the debug log differs. *)
Theorem batchEnqueue_paths_agree (requests : list LLMRequest) (now : Z)
    (d : t InMemoryStorage.t) :
  let viaBatch :=
    batchEnqueue inMemoryAdapter (Some InMemoryStorage.batchEnqueue) requests now d in
  let oneByOne := batchEnqueue inMemoryAdapter None requests now d in
  fst viaBatch = Ok tt /\
  fst oneByOne = Ok tt /\
  storage (snd viaBatch) = storage (snd oneByOne) /\
  metrics (snd viaBatch) = metrics (snd oneByOne) /\
  inFlightMessages (snd viaBatch) = inFlightMessages (snd oneByOne) /\
  prefetchBuffer (snd viaBatch) = prefetchBuffer (snd oneByOne).
Proof.
  destruct (sequential_enqueue requests now d)
    as (queued & st' & d' & Hbatch & Hseq & Hst & Hmet & Hinf & Hbuf).
  cbv zeta. unfold batchEnqueue at 2 4 6 8 10. rewrite Hseq. cbn [fst snd].
  unfold batchEnqueue, bind, onStorage. rewrite Hbatch.
  rewrite forEach_recordEnqueue. simpl.
  rewrite Hst, Hmet, Hinf, Hbuf. repeat split.
Qed.

End DispatcherLifecycle.


(** *** The metrics collector *)

Module MetricsCollectorFacts.
Import JS MetricsCollector.






(** With the limit 0 the slice is [slice(-0)], the whole array: [cleanup]
    then enforces no limit and drops by age only. *)
Lemma limit_zero_is_no_limit (now : Z) (c : t) :
  maxRecords c = 0 ->
  records (cleanup now c) = filter (isRecent (now - retentionMs c)) (records c).
Proof.
  intros Hzero. unfold cleanup. cbn [records]. rewrite Hzero.
  destruct (_ >? 0); reflexivity.
Qed.

End MetricsCollectorFacts.

